(** * MessageList: timeline building, grouping, read states, notifications

    A shallow embedding of the computational core of
    [src/components/MessageList.js] (the [MessageList] React component of
    stream-chat-react), and the properties of it that the design document
    states.

    Conventions of the embedding:
    - a JS [Date] is its time value, an integer number of milliseconds
      since the epoch ([Z]); only valid dates are considered;
    - an absent ([undefined] or [null]) property is [None];
    - a JS object used as a dictionary is a [gmap string _]; a property
      key that is [undefined] is the string ["undefined"], as
      [ToPropertyKey] makes it;
    - an array is a [list];
    - effects ([scrollToBottom], [setState], callbacks) are returned as an
      explicit trace next to the new state. *)

From stdpp Require Import gmap strings list fin_maps.
From Stdlib Require Import ZArith Lia Ascii Sorted.

Local Open Scope string_scope.
Local Open Scope list_scope.

(** ** Data model *)

Record User := mkUser {
  user_id : string;
  user_name : option string
}.

Record Attachment := mkAttachment {
  attachment_type : string
}.

Record Event := mkEvent {
  event_type : string;
  event_created_at : Z
}.

(** A message object as the channel supplies it. *)
Record Message := mkMessage {
  msg_id : option string;
  msg_type : string;
  msg_created_at : Z;
  msg_updated_at : Z;
  msg_user : User;
  msg_attachments : list Attachment;
  msg_deleted_at : option Z;
  msg_status : option string
}.

(** What [insertDates] puts in [newMessages]: the message itself,
    [{ type: 'message.date', date }] or [{ type: 'channel.event', event }]. *)
Inductive Entry :=
  | EMsg (m : Message)
  | EDate (date : Z)
  | EEvent (e : Event).

#[global] Instance User_eq_dec : EqDecision User.
Proof. solve_decision. Defined.
#[global] Instance Attachment_eq_dec : EqDecision Attachment.
Proof. solve_decision. Defined.
#[global] Instance Event_eq_dec : EqDecision Event.
Proof. solve_decision. Defined.
#[global] Instance Message_eq_dec : EqDecision Message.
Proof. solve_decision. Defined.
#[global] Instance Entry_eq_dec : EqDecision Entry.
Proof. solve_decision. Defined.

(** Property reads on an entry, as JS performs them. *)
Definition entry_type (x : Entry) : string :=
  match x with
  | EMsg m => msg_type m
  | EDate _ => "message.date"
  | EEvent _ => "channel.event"
  end.

Definition entry_id (x : Entry) : option string :=
  match x with EMsg m => msg_id m | _ => None end.

Definition entry_created_at (x : Entry) : option Z :=
  match x with EMsg m => Some (msg_created_at m) | _ => None end.

Definition entry_updated_at (x : Entry) : option Z :=
  match x with EMsg m => Some (msg_updated_at m) | _ => None end.

Definition entry_status (x : Entry) : option string :=
  match x with EMsg m => msg_status m | _ => None end.

(** The timestamp the design document sorts an entry by. *)
Definition effective_timestamp (x : Entry) : Z :=
  match x with
  | EMsg m => msg_created_at m
  | EDate d => d
  | EEvent e => event_created_at e
  end.

Definition is_message (x : Entry) : bool :=
  match x with EMsg _ => true | _ => false end.

(** [ToPropertyKey] of an id: an absent id is the key ["undefined"]. *)
Definition property_key (i : option string) : string :=
  match i with Some s => s | None => "undefined" end.

(** Truthiness of an optional string: absent and empty are falsy. *)
Definition truthy_string (i : option string) : bool :=
  match i with
  | Some s => negb (String.eqb s "")
  | None => false
  end.

(** [x || fallback] for an optional string [x]. *)
Definition or_else (i : option string) (fallback : string) : string :=
  match i with
  | Some s => if String.eqb s "" then fallback else s
  | None => fallback
  end.

(** ** Dates *)

Definition msPerDay : Z := 86400000.

(** [Day(t)] of ECMA-262: the day number of a time value. *)
Definition Day (t : Z) : Z := (t / msPerDay)%Z.

Section LocalTime.

(** The offset of local time from UTC at an instant, in milliseconds
    ([LocalTZA] of ECMA-262); it depends on the host's time zone. *)
Variable LocalTZA : Z -> Z.

Definition LocalTime (t : Z) : Z := (t + LocalTZA t)%Z.

(** The calendar day, in local time, a time value falls on. *)
Definition calendarDay (t : Z) : Z := Day (LocalTime t).

(** [Date.prototype.getDay]: the day of the week, 0 (Sunday) to 6. *)
Definition getDay (t : Z) : Z := ((Day (LocalTime t) + 4) mod 7)%Z.

(** ** insertDates *)

Section InsertDates.

(** [this.props.eventHistory] *)
Variable eventHistory : gmap string (list Event).

Definition passes_through (message : Message) : bool :=
  String.eqb (msg_type message) "message.read" || bool_decide (is_Some (msg_deleted_at message)).

(** The events the loop body pushes after [message], from the buckets
    the event history has of its own.  The object also inherits the
    properties of [Object.prototype]: for an id that names one of them
    and has no bucket of its own the code finds a function and throws,
    which [insertDates_or_throw] below models; [insertDates] is the
    timeline the code returns whenever it returns
    ([insertDates_or_throw_returns]). *)
Definition eventsNextToMessage (message : Message) : list Event :=
  match eventHistory !! or_else (msg_id message) "first" with
  | Some es => if (0 <? length es)%nat then es else []
  | None => []
  end.

(** Whether iteration [i] pushes a date marker before [message]. *)
Definition pushes_date (messages : list Message) (i : nat) (message : Message) : bool :=
  let messageDate := getDay (msg_created_at message) in
  let prevMessageDate :=
    if (0 <? i)%nat then
      match messages !! (i - 1)%nat with
      | Some prev => getDay (msg_created_at prev)
      | None => messageDate
      end
    else messageDate in
  if (i =? 0)%nat then true
  else if negb (messageDate =? prevMessageDate)%Z then true
  else false.

(** One iteration of the loop: what it pushes on [newMessages]. *)
Definition insertDates_pushes (messages : list Message) (i : nat) (message : Message) : list Entry :=
  if passes_through message then [EMsg message]
  else
    (if pushes_date messages i message
     then [EDate (msg_created_at message); EMsg message]
     else [EMsg message])
    ++ map EEvent (eventsNextToMessage message).

(** The loop over [messages.entries()], from index [i] on. *)
Fixpoint insertDates_loop (messages : list Message) (i : nat)
    (rest : list Message) (newMessages : list Entry) : list Entry :=
  match rest with
  | [] => newMessages
  | message :: rest' =>
      insertDates_loop messages (S i) rest'
        (newMessages ++ insertDates_pushes messages i message)
  end.

Definition insertDates (messages : list Message) : list Entry :=
  insertDates_loop messages 0 messages [].

End InsertDates.

(** ** The sort of [render] *)

(** The comparator [a.created_at - b.created_at]; [None] is [NaN], the
    result when either entry has no [created_at]. *)
Definition compareFn (a b : Entry) : option Z :=
  match entry_created_at a, entry_created_at b with
  | Some x, Some y => Some (x - y)%Z
  | _, _ => None
  end.

(** [SortCompare] of ECMA-262: a [NaN] from the comparator counts as 0. *)
Definition SortCompare (a b : Entry) : Z :=
  match compareFn a b with Some v => v | None => 0%Z end.

(** [Array.prototype.sort] as a stable insertion sort: an entry moves in
    front of another only when the comparator puts it strictly before.
    The comparator of [render] is not consistent on a timeline with
    markers, and there the order of the result is left to the engine.
    The statements about [array_sort] and [render] below are about what
    no engine does differently: the result holds the entries of the
    input, and a timeline of ties only, or one no entry of which is put
    after the next, is left as it is.  What depends on the order is
    stated for every function that returns a permutation
    ([render_in_host]). *)
Fixpoint sort_insert (x : Entry) (sorted : list Entry) : list Entry :=
  match sorted with
  | [] => [x]
  | y :: sorted' =>
      if (SortCompare x y <=? 0)%Z then x :: y :: sorted'
      else y :: sort_insert x sorted'
  end.

Fixpoint array_sort (l : list Entry) : list Entry :=
  match l with
  | [] => []
  | x :: l' => sort_insert x (array_sort l')
  end.

(** ** getReadStates *)

(** A value of [this.props.read]. *)
Record ReadState := mkReadState {
  last_read : option Z;
  read_user : User
}.

Section GetReadStates.

Variable messages : list Entry.

(** The first loop: an empty array under every entry's id. *)
Definition readData_init : gmap string (list User) :=
  fold_left (fun readData message => <[property_key (entry_id message) := []]> readData)
            messages ∅.

(** The inner loop: [userLastReadMsgId] after the scan ([None] is
    [undefined]).  [msg.updated_at < last_read] is false when the entry
    has no [updated_at]. *)
Definition userLastReadMsgId (lastRead : Z) : option string :=
  fold_left (fun found msg =>
               match entry_updated_at msg with
               | Some u => if (u <? lastRead)%Z then entry_id msg else found
               | None => found
               end)
            messages None.

(** The loop over [Object.values(this.props.read)], with its [break]. *)
Fixpoint getReadStates_loop (readStates : list ReadState)
    (readData : gmap string (list User)) : gmap string (list User) :=
  match readStates with
  | [] => readData
  | readState :: readStates' =>
      match last_read readState with
      | None => readData
      | Some lastRead =>
          getReadStates_loop readStates'
            match userLastReadMsgId lastRead with
            | Some k => <[k := default [] (readData !! k) ++ [read_user readState]]> readData
            | None => readData
            end
      end
  end.

(** [read] is [Object.values(this.props.read)], in iteration order. *)
Definition getReadStates (read : list ReadState) : gmap string (list User) :=
  getReadStates_loop read readData_init.

End GetReadStates.

(** ** getLastReceived *)

Definition is_received (x : Entry) : bool :=
  bool_decide (entry_status x = Some "received").

(** The loop [for (let i = l; i > 0; i--)], entered with counter [i].
    The result is [None] for [null] and [Some] of the [id] property read
    from the message found. *)
Fixpoint getLastReceived_loop (messages : list Entry) (i : nat) : option (option string) :=
  match i with
  | O => None
  | S i' =>
      match messages !! i with
      | Some x =>
          if is_received x then Some (entry_id x)
          else getLastReceived_loop messages i'
      | None => getLastReceived_loop messages i'
      end
  end.

Definition getLastReceived (messages : list Entry) : option (option string) :=
  getLastReceived_loop messages (length messages).

(** ** getGroupStyles *)

(** The disjunction that makes [isTopMessage] of the previous entry and
    [isBottomMessage] of the next one.  The reads of [attachments] and
    [user] are reached only when [type] is no marker's, that is on a
    message. *)
Definition ends_group (userId : string) (neighbour : option Entry) : bool :=
  match neighbour with
  | None => true
  | Some n =>
      String.eqb (entry_type n) "message.date"
      || String.eqb (entry_type n) "system"
      || String.eqb (entry_type n) "channel.event"
      || match n with
         | EMsg nm =>
             negb (length (msg_attachments nm) =? 0)%nat
             || negb (String.eqb userId (user_id (msg_user nm)))
             || String.eqb (msg_type nm) "error"
             || bool_decide (is_Some (msg_deleted_at nm))
         | _ => true
         end
  end.

Definition deleted_or_error (message : Message) : bool :=
  bool_decide (is_Some (msg_deleted_at message)) || String.eqb (msg_type message) "error".

(** The [groupStyles] array at the end of an iteration that reaches the
    assignment, from [isTopMessage] and [isBottomMessage]. *)
Definition groupStyles_of (noGroupByUser : bool) (message : Message)
    (isTopMessage isBottomMessage : bool) : list string :=
  let groupStyles := [] in
  let groupStyles := if isTopMessage then groupStyles ++ ["top"] else groupStyles in
  let groupStyles :=
    if isBottomMessage then
      if isTopMessage || deleted_or_error message then ["single"]
      else groupStyles ++ ["bottom"]
    else groupStyles in
  let groupStyles :=
    if negb isTopMessage && negb isBottomMessage then
      if deleted_or_error message then ["single"] else ["middle"]
    else groupStyles in
  let groupStyles :=
    if negb (length (msg_attachments message) =? 0)%nat then ["single"] else groupStyles in
  let groupStyles := if noGroupByUser then ["single"] else groupStyles in
  groupStyles.

(** Iteration [i] of the loop: the key and the array it assigns, or
    [None] when it [continue]s. *)
Definition getGroupStyles_assigns (noGroupByUser : bool) (messages : list Entry) (i : nat)
    : option (string * list string) :=
  match messages !! i with
  | Some (EMsg message as x) =>
      let previousMessage := if (i =? 0)%nat then None else messages !! (i - 1)%nat in
      let nextMessage := messages !! (i + 1)%nat in
      if String.eqb (entry_type x) "message.date" then None
      else if String.eqb (entry_type x) "channel.event" then None
      else
        let userId := user_id (msg_user message) in
        let isTopMessage := ends_group userId previousMessage in
        let isBottomMessage := ends_group userId nextMessage in
        Some (property_key (msg_id message),
              groupStyles_of noGroupByUser message isTopMessage isBottomMessage)
  | _ => None
  end.

Definition getGroupStyles (noGroupByUser : bool) (m : list Entry) : gmap string (list string) :=
  fold_left (fun messageGroupStyles i =>
               match getGroupStyles_assigns noGroupByUser m i with
               | Some (k, groupStyles) => <[k := groupStyles]> messageGroupStyles
               | None => messageGroupStyles
               end)
            (seq 0 (length m)) ∅.

(** ** render *)

(** The values [render] computes before it builds the elements. *)
Record RenderModel := mkRenderModel {
  allMessages : list Entry;
  messageGroupStyles : gmap string (list string);
  readData : gmap string (list User);
  lastReceivedId : option (option string)
}.

Definition render (messages : list Message) (eventHistory : gmap string (list Event))
    (read : list ReadState) (noGroupByUser : bool) : RenderModel :=
  let allMessages := insertDates eventHistory messages in
  let messageGroupStyles := getGroupStyles noGroupByUser allMessages in
  let allMessages := array_sort allMessages in
  let readData := getReadStates allMessages read in
  let lastReceivedId := getLastReceived allMessages in
  mkRenderModel allMessages messageGroupStyles readData lastReceivedId.

End LocalTime.

(** ** componentDidUpdate *)

(** [this.state] *)
Record State := mkState {
  newMessagesNotification : bool;
  editing : string;
  online : bool
}.

(** [this.props.client]: the code reads both [client.user.id] and
    [client.userID]. *)
Record Client := mkClient {
  client_user : User;
  userID : string
}.

(** What an update does to the scroll container. *)
Inductive Effect :=
  | ScrollToTarget (target : Z)
  | ScrollToTargetAfter (delay : Z) (snapshot : Z)
  | ScrollToBottom.

#[global] Instance Effect_eq_dec : EqDecision Effect.
Proof. solve_decision. Defined.

(** [userScrolledUp]: [this.scrollOffset > 310]; the offset is
    [undefined] until [listenToScroll] has been called. *)
Definition userScrolledUp (scrollOffset : option Z) : bool :=
  match scrollOffset with
  | Some offset => (310 <? offset)%Z
  | None => false
  end.

Definition set_newMessagesNotification (b : bool) (s : State) : State :=
  mkState b (editing s) (online s).

(** [listenToScroll]: the new offset and the new state. *)
Definition listenToScroll (offset : Z) (s : State) : option Z * State :=
  (Some offset,
   if newMessagesNotification s && negb (userScrolledUp (Some offset))
   then set_newMessagesNotification false s
   else s).

Section ComponentDidUpdate.

Variable client : Client.
(** [this.props.messages] and [prevProps.messages] *)
Variables messages prevMessages : list Message.
(** [this.scrollOffset] and [list.scrollHeight] *)
Variable scrollOffset : option Z.
Variable scrollHeight : Z.

(** The first part: the scroll position is restored from the snapshot. *)
Definition restore_scroll (snapshot : option Z) : list Effect :=
  match snapshot with
  | None => []
  | Some pos =>
      ScrollToTarget (scrollHeight - pos)
      :: match last messages with
         | Some lastMessage =>
             if negb (String.eqb (user_id (msg_user lastMessage)) (user_id (client_user client)))
             then [ScrollToTargetAfter 100 pos]
             else []
         | None => []
         end
  end.

(** The second part: new messages being sent or received. *)
Definition handle_new_messages (s : State) : list Effect * State :=
  match last prevMessages, last messages with
  | Some previousLastMessage, Some currentLastMessage =>
      let hasNewMessage := negb (bool_decide (msg_id currentLastMessage = msg_id previousLastMessage)) in
      let userScrolledUp := userScrolledUp scrollOffset in
      let isOwner := String.eqb (user_id (msg_user currentLastMessage)) (userID client) in
      let scrollToBottom := false in
      let scrollToBottom :=
        if hasNewMessage && isOwner then true
        else if hasNewMessage && negb userScrolledUp then true
        else scrollToBottom in
      let effects := if scrollToBottom then [ScrollToBottom] else [] in
      let notify := negb scrollToBottom && hasNewMessage && negb (newMessagesNotification s) in
      let clear := scrollToBottom && newMessagesNotification s in
      let s' := if notify then set_newMessagesNotification true s else s in
      let s' := if clear then set_newMessagesNotification false s' else s' in
      (effects, s')
  | _, _ => ([], s)
  end.

Definition componentDidUpdate (s : State) (snapshot : option Z) : list Effect * State :=
  let '(effects, s') := handle_new_messages s in
  (restore_scroll snapshot ++ effects, s').

End ComponentDidUpdate.

(** ** _onMentionsHoverOrClick *)

(** The parts of a DOM event the handler reads. *)
Record DomEvent := mkDomEvent {
  target_tagName : string;
  target_innerHTML : string;
  dom_event_type : string
}.

(** A call of one of the two callbacks of the props. *)
Inductive Call :=
  | OnMentionsHover (e : DomEvent) (user : option User)
  | OnMentionsClick (e : DomEvent) (user : option User).

Definition lower_ascii (c : ascii) : ascii :=
  let n := nat_of_ascii c in
  if (65 <=? n)%nat && (n <=? 90)%nat then ascii_of_nat (n + 32) else c.

Fixpoint toLowerCase (s : string) : string :=
  match s with
  | EmptyString => EmptyString
  | String c s' => String (lower_ascii c) (toLowerCase s')
  end.

(** [s.replace(c, '')] for a one-character pattern: the first occurrence
    goes. *)
Fixpoint remove_first (c : ascii) (s : string) : string :=
  match s with
  | EmptyString => EmptyString
  | String d s' => if Ascii.eqb c d then s' else String d (remove_first c s')
  end.

Definition starts_with_at (s : string) : bool :=
  match s with
  | String c _ => Ascii.eqb c "@"%char
  | EmptyString => false
  end.

Definition names_user (userName : string) (user : User) : bool :=
  bool_decide (user_name user = Some userName) || String.eqb (user_id user) userName.

(** [onMentionsHover] and [onMentionsClick] say whether the props have
    the callback. *)
Definition _onMentionsHoverOrClick (onMentionsHover onMentionsClick : bool)
    (e : DomEvent) (mentioned_users : list User) : list Call :=
  if negb onMentionsHover || negb onMentionsClick then []
  else
    let tagName := toLowerCase (target_tagName e) in
    let textContent := remove_first "*"%char (target_innerHTML e) in
    if String.eqb tagName "strong" && starts_with_at textContent then
      let userName := remove_first "@"%char textContent in
      let user := List.find (names_user userName) mentioned_users in
      (if onMentionsHover && String.eqb (dom_event_type e) "mouseover"
       then [OnMentionsHover e user] else [])
      ++
      (if onMentionsClick && String.eqb (dom_event_type e) "click"
       then [OnMentionsHover e user] else [])
    else [].

(** ** getSnapshotBeforeUpdate *)

Section GetSnapshotBeforeUpdate.

(** [deepequal] of the deep-equal package, on two event histories. *)
Variable deepequal : gmap string (list Event) -> gmap string (list Event) -> bool.

(** [scrollHeight] and [scrollTop] are those of the list element before
    the update; the result is [None] for [null]. *)
Definition getSnapshotBeforeUpdate (threadList : bool)
    (messages prevMessages : list Message)
    (eventHistory prevEventHistory : gmap string (list Event))
    (scrollHeight scrollTop : Z) : option Z :=
  if threadList then None
  else if (length prevMessages <? length messages)%nat
          || negb (deepequal eventHistory prevEventHistory)
       then Some (scrollHeight - scrollTop)%Z
       else None.

End GetSnapshotBeforeUpdate.

(** ** The other handlers of the state *)

(** The state the constructor sets, and [this.scrollOffset] before the
    first call of [listenToScroll]. *)
Definition initial_state : State := mkState false "" true.

Definition connectionChanged (event_online : bool) (s : State) : State :=
  if negb (Bool.eqb (online s) event_online)
  then mkState (newMessagesNotification s) (editing s) event_online
  else s.

(** [setEditingState]: the id of the message goes into [editing].  An
    absent id is kept as the empty string: the component reads [editing]
    only after testing it for truthiness, which both fail. *)
Definition setEditingState (message : Message) (s : State) : State :=
  mkState (newMessagesNotification s) (default "" (msg_id message)) (online s).

Definition clearEditingState (s : State) : State :=
  mkState (newMessagesNotification s) "" (online s).

(** [ESC] is [KEY_CODES.ESC] of the text area module. *)
Definition keypress (ESC keyCode : Z) (s : State) : State :=
  if (keyCode =? ESC)%Z && negb (String.eqb (editing s) "")
  then clearEditingState s
  else s.

Definition goToNewMessages (s : State) : list Effect * State :=
  ([ScrollToBottom], set_newMessagesNotification false s).

(** The component between two events: its state and [this.scrollOffset]. *)
Record Component := mkComponent {
  component_state : State;
  component_scrollOffset : option Z
}.

Definition initial_component : Component := mkComponent initial_state None.

(** What can happen to a mounted component. *)
Inductive Action :=
  | DidUpdate (client : Client) (messages prevMessages : list Message)
              (scrollHeight : Z) (snapshot : option Z)
  | ListenToScroll (offset : Z)
  | GoToNewMessages
  | ConnectionChanged (event_online : bool)
  | KeyPress (keyCode : Z)
  | SetEditingState (message : Message)
  | ClearEditingState.

Definition step (ESC : Z) (c : Component) (a : Action) : Component :=
  let s := component_state c in
  let offset := component_scrollOffset c in
  match a with
  | DidUpdate client messages prevMessages scrollHeight snapshot =>
      mkComponent
        (snd (componentDidUpdate client messages prevMessages offset scrollHeight s snapshot))
        offset
  | ListenToScroll o =>
      mkComponent (snd (listenToScroll o s)) (fst (listenToScroll o s))
  | GoToNewMessages => mkComponent (snd (goToNewMessages s)) offset
  | ConnectionChanged event_online => mkComponent (connectionChanged event_online s) offset
  | KeyPress keyCode => mkComponent (keypress ESC keyCode s) offset
  | SetEditingState message => mkComponent (setEditingState message s) offset
  | ClearEditingState => mkComponent (clearEditingState s) offset
  end.

Definition run (ESC : Z) (actions : list Action) : Component :=
  fold_left (step ESC) actions initial_component.

(** ** The elements of render *)

(** A React key: a string, a date used as a key, or the ISO string of a
    date followed by ["-i"]. *)
Inductive Key :=
  | KeyString (s : string)
  | KeyDate (t : Z)
  | KeySeparator (t : Z).

(** The props [render] computes for a [Message] element; the others are
    props and state of the list handed on as they are. *)
Record MessageProps := mkMessageProps {
  props_message : Message;
  props_groupStyles : list string;
  props_readBy : list User;
  props_lastReceivedId : option (option string);
  props_editing : bool
}.

(** The list items. *)
Inductive Element :=
  | DateSeparatorItem (key : Key) (date : Z)
  | EventComponentItem (key : Key) (message : Entry)
  | MessageItem (key : Key) (props : MessageProps).

Section RenderElements.

Variable threadList : bool.
(** [this.state.editing] *)
Variable state_editing : string.
Variable messageGroupStyles : gmap string (list string).
Variable readData : gmap string (list User).
Variable lastReceivedId : option (option string).

(** What one iteration of the loop pushes on [elements], by the [type]
    of the entry: that of a date marker is ['message.date'], that of an
    event wrapper ['channel.event'].  [None] is the [TypeError] of
    reading a property of [undefined], which a message that carries one
    of these two types, without the [date] or the [event] of a marker,
    runs into.  The creation of the [ref] of a message is left out. *)
Definition render_entry (message : Entry) : option (list Element) :=
  match message with
  | EDate date =>
      if threadList then Some []
      else Some [DateSeparatorItem (KeySeparator date) date]
  | EEvent e => Some [EventComponentItem (KeyDate (event_created_at e)) message]
  | EMsg m =>
      if String.eqb (msg_type m) "message.date" then
        if threadList then Some [] else None
      else if String.eqb (msg_type m) "channel.event" || String.eqb (msg_type m) "system" then
        if String.eqb (msg_type m) "system"
        then Some [EventComponentItem (KeyDate (msg_created_at m)) message]
        else None
      else if negb (String.eqb (msg_type m) "message.read") then
        let groupStyles := default [] (messageGroupStyles !! property_key (msg_id m)) in
        let readBy := default [] (readData !! property_key (msg_id m)) in
        Some [MessageItem
                (if truthy_string (msg_id m) then KeyString (property_key (msg_id m))
                 else KeyDate (msg_created_at m))
                (mkMessageProps m groupStyles readBy
                   (if bool_decide (lastReceivedId = Some (msg_id m)) then lastReceivedId else None)
                   (negb (String.eqb state_editing "")
                    && bool_decide (Some state_editing = msg_id m)))]
      else Some []
  end.

(** The loop over [allMessages]. *)
Fixpoint render_loop (allMessages : list Entry) (elements : list Element)
    : option (list Element) :=
  match allMessages with
  | [] => Some elements
  | message :: allMessages' =>
      match render_entry message with
      | Some pushed => render_loop allMessages' (elements ++ pushed)
      | None => None
      end
  end.

End RenderElements.

(** The [elements] of [render], from the props and the state. *)
Definition render_elements (LocalTZA : Z -> Z) (threadList : bool) (state_editing : string)
    (messages : list Message) (eventHistory : gmap string (list Event))
    (read : list ReadState) (noGroupByUser : bool) : option (list Element) :=
  let r := render LocalTZA messages eventHistory read noGroupByUser in
  render_loop threadList state_editing (messageGroupStyles r) (readData r) (lastReceivedId r)
              (allMessages r) [].

(** ** render in its host *)

(** What a property inherited from [Object.prototype] holds, as far as
    [insertDates] can tell: a function, with its [length], or an object
    without a [length]. *)
Inductive Inherited :=
  | InheritedFunction (length : nat)
  | InheritedObject.

(** What [this.props.eventHistory[key]] gives. *)
Inductive Bucket :=
  | OwnBucket (events : list Event)
  | InheritedValue (v : Inherited)
  | NoBucket.

Section Host.

(** The properties a plain object inherits in the host. *)
Variable inherited : string -> option Inherited.
(** [Array.prototype.sort] of the host, with the comparator of [render]. *)
Variable sort : list Entry -> list Entry.
Variable LocalTZA : Z -> Z.

Section InsertDatesOrThrow.

(** The own properties of [this.props.eventHistory]. *)
Variable eventHistory : gmap string (list Event).

Definition eventHistory_get (key : string) : Bucket :=
  match eventHistory !! key with
  | Some events => OwnBucket events
  | None =>
      match inherited key with
      | Some v => InheritedValue v
      | None => NoBucket
      end
  end.

(** The end of the loop body: [None] is the [TypeError] of calling
    [forEach] on a function, which has a [length] and no [forEach]. *)
Definition push_events (message : Message) : option (list Entry) :=
  match eventHistory_get (or_else (msg_id message) "first") with
  | OwnBucket events =>
      Some (if (0 <? length events)%nat then map EEvent events else [])
  | InheritedValue (InheritedFunction n) => if (0 <? n)%nat then None else Some []
  | InheritedValue InheritedObject => Some []
  | NoBucket => Some []
  end.

Definition insertDates_iteration (messages : list Message) (i : nat) (message : Message)
    : option (list Entry) :=
  if passes_through message then Some [EMsg message]
  else
    match push_events message with
    | Some events =>
        Some ((if pushes_date LocalTZA messages i message
               then [EDate (msg_created_at message); EMsg message]
               else [EMsg message])
              ++ events)
    | None => None
    end.

Fixpoint insertDates_or_throw_loop (messages : list Message) (i : nat)
    (rest : list Message) (newMessages : list Entry) : option (list Entry) :=
  match rest with
  | [] => Some newMessages
  | message :: rest' =>
      match insertDates_iteration messages i message with
      | Some pushed => insertDates_or_throw_loop messages (S i) rest' (newMessages ++ pushed)
      | None => None
      end
  end.

(** [insertDates] with its exception. *)
Definition insertDates_or_throw (messages : list Message) : option (list Entry) :=
  insertDates_or_throw_loop messages 0 messages [].

End InsertDatesOrThrow.

(** [render] up to its [elements], with the exceptions of [insertDates]
    and of the loop. *)
Definition render_in_host (threadList : bool) (state_editing : string)
    (messages : list Message) (eventHistory : gmap string (list Event))
    (read : list ReadState) (noGroupByUser : bool) : option (list Element) :=
  match insertDates_or_throw eventHistory messages with
  | None => None
  | Some allMessages =>
      let messageGroupStyles := getGroupStyles noGroupByUser allMessages in
      let allMessages := sort allMessages in
      let readData := getReadStates allMessages read in
      let lastReceivedId := getLastReceived allMessages in
      render_loop threadList state_editing messageGroupStyles readData lastReceivedId
                  allMessages []
  end.

End Host.

(** The properties of [Object.prototype] in ECMA-262, Annex B included. *)
Definition Object_prototype (key : string) : option Inherited :=
  if String.eqb key "constructor" then Some (InheritedFunction 1)
  else if String.eqb key "hasOwnProperty" then Some (InheritedFunction 1)
  else if String.eqb key "isPrototypeOf" then Some (InheritedFunction 1)
  else if String.eqb key "propertyIsEnumerable" then Some (InheritedFunction 1)
  else if String.eqb key "toLocaleString" then Some (InheritedFunction 0)
  else if String.eqb key "toString" then Some (InheritedFunction 0)
  else if String.eqb key "valueOf" then Some (InheritedFunction 0)
  else if String.eqb key "__defineGetter__" then Some (InheritedFunction 2)
  else if String.eqb key "__defineSetter__" then Some (InheritedFunction 2)
  else if String.eqb key "__lookupGetter__" then Some (InheritedFunction 1)
  else if String.eqb key "__lookupSetter__" then Some (InheritedFunction 1)
  else if String.eqb key "__proto__" then Some InheritedObject
  else None.

(** ** Vocabulary of the statements *)

(** The number of message entries of a timeline. *)
Definition count_messages (l : list Entry) : nat :=
  length (List.filter is_message l).

Definition is_event (x : Entry) : bool :=
  match x with EEvent _ => true | _ => false end.

Definition not_deleted (m : Message) : bool :=
  negb (bool_decide (is_Some (msg_deleted_at m))).

(** A timeline in ascending order of effective timestamp. *)
Definition sorted_by_timestamp (l : list Entry) : Prop :=
  StronglySorted Z.le (map effective_timestamp l).

(** The reading of the date-marker rule that takes "the first message"
    to be the first one that is no read marker and not soft-deleted: a
    marker stands immediately before it. *)
Definition date_before_first_regular (messages : list Message) (out : list Entry) : Prop :=
  forall m, List.find (fun x => negb (passes_through x)) messages = Some m ->
    exists pre post, out = pre ++ EDate (msg_created_at m) :: EMsg m :: post.

(** The reading of the rule for the sentinel bucket that has its events
    follow the first message of the input. *)
Definition first_events_after_first_message (eventHistory : gmap string (list Event))
    (messages : list Message) (out : list Entry) : Prop :=
  forall m rest es, messages = m :: rest -> eventHistory !! "first" = Some es ->
    exists pre post, out = pre ++ EMsg m :: map EEvent es ++ post /\ count_messages pre = 0%nat.

Definition head_is_event (l : list Entry) : bool :=
  match l with
  | EEvent _ :: _ => true
  | _ => false
  end.

(** The events [insertDates] is to put right after a message: none after
    a read marker or a soft-deleted message, the bucket of its id when
    the id is a non-empty string, the bucket ["first"] otherwise. *)
Definition events_after (eventHistory : gmap string (list Event)) (m : Message) : list Event :=
  if passes_through m then []
  else if truthy_string (msg_id m)
       then default [] (eventHistory !! property_key (msg_id m))
       else default [] (eventHistory !! "first").

(** The read index in the words of the design document.  A record
    points at the last entry updated strictly before its [last_read]. *)
Definition updated_before (t : Z) (x : Entry) : bool :=
  match entry_updated_at x with
  | Some u => (u <? t)%Z
  | None => false
  end.

Definition last_read_entry (messages : list Entry) (t : Z) : option Entry :=
  last (List.filter (updated_before t) messages).

(** The id a record is filed under: none when it has no [last_read],
    when no entry is older, or when the entry pointed at has no id. *)
Definition read_target (messages : list Entry) (r : ReadState) : option string :=
  match last_read r with
  | Some t =>
      match last_read_entry messages t with
      | Some x => entry_id x
      | None => None
      end
  | None => None
  end.

(** The records in front of the first one without [last_read]. *)
Fixpoint records_processed (read : list ReadState) : list ReadState :=
  match read with
  | [] => []
  | r :: read' =>
      match last_read r with
      | Some _ => r :: records_processed read'
      | None => []
      end
  end.

(** The users filed under key [k], in the order of their records. *)
Definition readers_of (messages : list Entry) (read : list ReadState) (k : string) : list User :=
  map read_user
      (List.filter (fun r => bool_decide (read_target messages r = Some k))
                   (records_processed read)).

Definition entry_key (x : Entry) : string := property_key (entry_id x).


(** The reading of the read-state rule that files a user under the last
    older message whether or not that message has an id: the user is in
    the list [render] reads for that message. *)
Definition filed_under_last_older (messages : list Entry) (read : list ReadState)
    (index : gmap string (list User)) : Prop :=
  forall r t x, r ∈ records_processed read -> last_read r = Some t ->
    last_read_entry messages t = Some x ->
    read_user r ∈ default [] (index !! entry_key x).

(** A message that [getGroupStyles] takes for a marker, by its type. *)
Definition is_marker_type (m : Message) : bool :=
  String.eqb (msg_type m) "message.date" || String.eqb (msg_type m) "channel.event".

(** A message that can sit inside a group: no attachments, no system or
    error type, not a marker, not soft-deleted. *)
Definition groupable (m : Message) : bool :=
  (length (msg_attachments m) =? 0)%nat
  && negb (String.eqb (msg_type m) "system")
  && negb (String.eqb (msg_type m) "error")
  && negb (is_marker_type m)
  && not_deleted m.

(** No two message entries of the timeline share a key. *)
Definition distinct_keys (m : list Entry) : Prop :=
  NoDup (map entry_key (List.filter is_message m)).

(** The reading of the grouping rule that takes any three groupable
    messages of one user in a row, whatever stands around them. *)
Definition any_three_in_a_row (m : list Entry) : Prop :=
  forall i a b c,
    m !! i = Some (EMsg a) -> m !! (i + 1)%nat = Some (EMsg b) -> m !! (i + 2)%nat = Some (EMsg c) ->
    groupable a = true -> groupable b = true -> groupable c = true ->
    user_id (msg_user a) = user_id (msg_user b) ->
    user_id (msg_user b) = user_id (msg_user c) ->
    getGroupStyles_assigns false m i = Some (entry_key (EMsg a), ["top"])
    /\ getGroupStyles_assigns false m (i + 1) = Some (entry_key (EMsg b), ["middle"])
    /\ getGroupStyles_assigns false m (i + 2) = Some (entry_key (EMsg c), ["bottom"]).

(** The user name a mention event carries. *)
Definition mention_name (e : DomEvent) : string :=
  remove_first "@"%char (remove_first "*"%char (target_innerHTML e)).

(** The reading of the mention rule that has no callback called when the
    name is that of no mentioned user. *)
Definition silent_when_not_found (onMentionsHover onMentionsClick : bool)
    (e : DomEvent) (mentioned_users : list User) : Prop :=
  List.find (names_user (mention_name e)) mentioned_users = None ->
  _onMentionsHoverOrClick onMentionsHover onMentionsClick e mentioned_users = [].

(** The comparator of [render] does not put [x] after [y]. *)
Definition not_after (x y : Entry) : Prop := (SortCompare x y <= 0)%Z.

(** What an iteration of [insertDates] pushes for [m]: the message, with
    entries that are no messages before and behind it. *)
Definition block_of (m : Message) (b : list Entry) : Prop :=
  exists pre post, b = pre ++ EMsg m :: post
    /\ Forall (fun x => is_message x = false) pre
    /\ Forall (fun x => is_message x = false) post.

(** The four arrays [getGroupStyles] can assign. *)
Definition group_styles : list (list string) :=
  [["top"]; ["bottom"]; ["middle"]; ["single"]].

(** A message [getGroupStyles] gives a style to. *)
Definition styled (x : Entry) : bool :=
  match x with
  | EMsg m => negb (is_marker_type m)
  | _ => false
  end.

(** The notification is pending only while the list is scrolled up. *)
Definition notification_while_scrolled_up (c : Component) : Prop :=
  newMessagesNotification (component_state c) = true ->
  userScrolledUp (component_scrollOffset c) = true.

Definition is_restore (e : Effect) : bool :=
  match e with
  | ScrollToTarget _ | ScrollToTargetAfter _ _ => true
  | ScrollToBottom => false
  end.

(** A message the loop of [render] cannot render. *)
Definition breaks_render (threadList : bool) (m : Message) : bool :=
  String.eqb (msg_type m) "channel.event"
  || (String.eqb (msg_type m) "message.date" && negb threadList).

(** A message [render] hands to the [Message] component: one that is
    no marker, no system message and no read marker by its type. *)
Definition rendered_as_message (m : Message) : bool :=
  negb (String.eqb (msg_type m) "message.date")
  && negb (String.eqb (msg_type m) "channel.event")
  && negb (String.eqb (msg_type m) "system")
  && negb (String.eqb (msg_type m) "message.read").

Definition message_received (m : Message) : bool :=
  bool_decide (msg_status m = Some "received").

(** A message at which [insertDates] throws: it is neither a read marker
    nor soft-deleted, the event history has no bucket of its own under
    its key, and inherits a function with parameters there. *)
Definition bucket_throws (inherited : string -> option Inherited)
    (eventHistory : gmap string (list Event)) (m : Message) : bool :=
  negb (passes_through m)
  && match eventHistory !! or_else (msg_id m) "first" with
     | Some _ => false
     | None =>
         match inherited (or_else (msg_id m) "first") with
         | Some (InheritedFunction n) => (0 <? n)%nat
         | _ => false
         end
     end.

(** ** Sample inputs *)

(** A host in UTC. *)
Definition utc (t : Z) : Z := 0%Z.

Definition alice : User := mkUser "alice" (Some "Alice").
Definition bob : User := mkUser "bob" (Some "Bob").

(** A regular message without attachments. *)
Definition plain_message (i : option string) (t : Z) (u : User) : Message :=
  mkMessage i "regular" t t u [] None None.

(** A soft-deleted message. *)
Definition deleted_message (i : option string) (t deleted : Z) (u : User) : Message :=
  mkMessage i "regular" t t u [] (Some deleted) None.

Definition member_added (t : Z) : Event := mkEvent "member.added" t.

Definition monday : Z := (4 * msPerDay)%Z.
Definition tuesday : Z := (5 * msPerDay)%Z.

(** The scenario of the design document: two messages on a Monday, one
    on the Tuesday. *)
Definition m1 : Message := plain_message (Some "1") monday alice.
Definition m2 : Message := plain_message (Some "2") (monday + 1000) alice.
Definition m3 : Message := plain_message (Some "3") tuesday alice.

(** A soft-deleted message followed by a regular one of the same day. *)
Definition d0 : Message := deleted_message (Some "0") monday (monday + 500) alice.

(** A message a week after [m1]. *)
Definition m1_next_week : Message := plain_message (Some "8") (monday + 7 * msPerDay) alice.

(** An event from before the first message, and a message not yet given
    an id. *)
Definition first_bucket : gmap string (list Event) := {[ "first" := [member_added 50] ]}.
Definition pending : Message := plain_message None 100 alice.

(** A message with an id followed by one without, and a reader past both. *)
Definition sent : Message := plain_message (Some "a") 10 alice.
Definition unsent : Message := plain_message None 20 alice.
Definition bob_read : ReadState := mkReadState (Some 30%Z) bob.
Definition alice_unread : ReadState := mkReadState None alice.

(** Four messages in a row by one user. *)
Definition four_in_a_row : list Entry :=
  map EMsg [plain_message (Some "w") 1 alice; plain_message (Some "x") 2 alice;
            plain_message (Some "y") 3 alice; plain_message (Some "z") 4 alice].

(** A group of three between a date marker and a message of another user. *)
Definition group_of_three : list Entry :=
  [EDate 1; EMsg (plain_message (Some "x") 1 alice); EMsg (plain_message (Some "y") 2 alice);
   EMsg (plain_message (Some "z") 3 alice); EMsg (plain_message (Some "b") 4 bob)].

Definition with_picture : Message :=
  mkMessage (Some "p") "regular" 2 2 alice [mkAttachment "image"] None None.

(** The local user sends, or another user sends, a second message. *)
Definition me : Client := mkClient alice "alice".
Definition quiet : State := mkState false "" true.
Definition from_alice : Message := plain_message (Some "n1") 1 alice.
Definition from_bob : Message := plain_message (Some "n2") 2 bob.
Definition from_me : Message := plain_message (Some "n3") 3 alice.

(** The three updates: an own message arrives, another user's message
    arrives while the list is scrolled up, the first message arrives. *)
Definition own_update : list Effect * State :=
  componentDidUpdate me [from_alice; from_me] [from_alice] (Some 500%Z) 1000 quiet None.
Definition other_update : list Effect * State :=
  componentDidUpdate me [from_alice; from_bob] [from_alice] (Some 500%Z) 1000 quiet None.
Definition first_update : list Effect * State :=
  componentDidUpdate me [from_alice] [] (Some 500%Z) 1000 quiet (Some 200%Z).

(** A hover over the mention of a user that the message does not list. *)
Definition hover_carol : DomEvent := mkDomEvent "STRONG" "@carol" "mouseover".

(** Two messages of which only the first is received. *)
Definition received_message : Message :=
  mkMessage (Some "r") "regular" 1 1 alice [] None (Some "received").

(** Event histories compared by their contents. *)
Definition same_history (a b : gmap string (list Event)) : bool := bool_decide (a = b).

(** A message that carries the type of an event wrapper. *)
Definition fake_event : Message :=
  mkMessage (Some "e") "channel.event" 1 1 alice [] None None.

(** The elements of the scenario, with the second message being edited. *)
Definition scenario_elements : option (list Element) :=
  render_elements utc false "2" [m1; m2; m3] ∅ [bob_read] false.

(** The scenario with its first message received. *)
Definition m1_received : Message :=
  mkMessage (Some "1") "regular" monday monday alice [] None (Some "received").

(** Another user's message arrives while the list is at the bottom. *)
Definition at_bottom_update : list Effect * State :=
  componentDidUpdate me [from_alice; from_bob] [from_alice] (Some 0%Z) 1000
    (mkState true "" true) None.

(** The list is scrolled up, then another user's message arrives. *)
Definition scrolled_up_then_message : list Action :=
  [ListenToScroll 500; DidUpdate me [from_alice; from_bob] [from_alice] 1000 None].

(** A message whose id names a property of [Object.prototype]. *)
Definition named_constructor : Message := plain_message (Some "constructor") monday alice.

(** Two messages out of order, a reader past the older one. *)
Definition late : Message := plain_message (Some "late") 80 alice.
Definition early : Message := plain_message (Some "early") 20 alice.
Definition reader_50 : ReadState := mkReadState (Some 50%Z) bob.

(** ** Facts about insertDates *)

Section InsertDatesFacts.

Variable LocalTZA : Z -> Z.
Variable eventHistory : gmap string (list Event).

Abbreviation pushes := (insertDates_pushes LocalTZA eventHistory).

Lemma insertDates_loop_pushes messages rest i newMessages :
  insertDates_loop LocalTZA eventHistory messages i rest newMessages
  = newMessages ++ concat (imap (fun j => pushes messages (i + j)) rest).
Proof.
  revert i newMessages.
  induction rest as [|m rest IH]; intros i acc; simpl.
  - by rewrite app_nil_r.
  - rewrite IH, <- app_assoc, Nat.add_0_r.
    do 3 f_equal. apply imap_ext. intros j x _. simpl. f_equal. lia.
Qed.

(** The output is the concatenation of what the iterations push. *)
Lemma insertDates_blocks messages :
  insertDates LocalTZA eventHistory messages = concat (imap (pushes messages) messages).
Proof.
  unfold insertDates. rewrite insertDates_loop_pushes. simpl.
  f_equal.
Qed.

Lemma filter_is_message_events (es : list Event) :
  List.filter is_message (map EEvent es) = [].
Proof. induction es; simpl; auto. Qed.

(** Every iteration pushes its message, and no other. *)
Lemma pushes_one_message messages i m :
  List.filter is_message (pushes messages i m) = [EMsg m].
Proof.
  unfold insertDates_pushes.
  destruct (passes_through m); [reflexivity|].
  rewrite List.filter_app, filter_is_message_events.
  destruct (pushes_date _ _ _ _); reflexivity.
Qed.

Lemma filter_is_message_blocks (f : nat -> Message -> list Entry) messages :
  (forall i m, List.filter is_message (f i m) = [EMsg m]) ->
  List.filter is_message (concat (imap f messages)) = map EMsg messages.
Proof.
  revert f. induction messages as [|m messages IH]; intros f Hf; simpl; [done|].
  rewrite List.filter_app, Hf, IH; [done|].
  intros i x. apply Hf.
Qed.

Lemma count_messages_blocks (f : nat -> Message -> list Entry) messages :
  (forall i m, List.filter is_message (f i m) = [EMsg m]) ->
  count_messages (concat (imap f messages)) = length messages.
Proof.
  intros Hf. unfold count_messages.
  by rewrite filter_is_message_blocks, length_map.
Qed.

(** The output around iteration [i]. *)
Lemma blocks_split (f : nat -> Message -> list Entry) messages i m :
  messages !! i = Some m ->
  concat (imap f messages)
  = concat (imap f (take i messages)) ++ f i m
    ++ concat (imap (fun j => f (S i + j)) (drop (S i) messages)).
Proof.
  intros Hi.
  assert (Hlen : length (take i messages) = i).
  { rewrite length_take. apply lookup_lt_Some in Hi. lia. }
  rewrite <- (take_drop_middle messages i m Hi) at 1.
  rewrite imap_app, concat_app. simpl. rewrite Hlen, Nat.add_0_r.
  do 3 f_equal. apply imap_ext. intros j x _. simpl. f_equal. lia.
Qed.

(** Every entry of the output was pushed by some iteration. *)
Lemma blocks_lookup (f : nat -> Message -> list Entry) messages j x :
  concat (imap f messages) !! j = Some x ->
  exists i m k, messages !! i = Some m /\ f i m !! k = Some x
    /\ j = (length (concat (imap f (take i messages))) + k)%nat.
Proof.
  revert f j. induction messages as [|m messages IH]; intros f j; simpl; [done|].
  intros Hj. destruct (decide (j < length (f 0%nat m))%nat) as [Hlt|Hge].
  - rewrite lookup_app_l in Hj by done.
    exists 0%nat, m, j. simpl. done.
  - rewrite lookup_app_r in Hj by lia.
    apply IH in Hj as (i & m' & k & Hi & Hk & Hpos).
    exists (S i), m', k. simpl. split; [done|]. split; [done|].
    rewrite length_app. lia.
Qed.

End InsertDatesFacts.

(** ** Date markers (C1) *)

Section DateMarkers.

Variable LocalTZA : Z -> Z.
Variable eventHistory : gmap string (list Event).

Abbreviation pushes := (insertDates_pushes LocalTZA eventHistory).

Lemma events_lookup_no_date (es : list Event) k d :
  map EEvent es !! k = Some (EDate d) -> False.
Proof.
  revert k. induction es as [|e es IH]; intros [|k]; simpl; try done. apply IH.
Qed.

(** A date marker in what an iteration pushes is its first entry. *)
Lemma pushes_date_inv messages i m k d :
  pushes messages i m !! k = Some (EDate d) ->
  k = 0%nat /\ d = msg_created_at m /\ passes_through m = false
  /\ pushes_date LocalTZA messages i m = true
  /\ pushes messages i m
     = EDate (msg_created_at m) :: EMsg m :: map EEvent (eventsNextToMessage eventHistory m).
Proof.
  unfold insertDates_pushes.
  destruct (passes_through m).
  { destruct k; simpl; [done|]. by rewrite lookup_nil. }
  destruct (pushes_date LocalTZA messages i m); simpl.
  - destruct k as [|[|k]]; simpl; intros H.
    + by inversion H.
    + done.
    + by apply events_lookup_no_date in H.
  - destruct k as [|k]; simpl; intros H; [done|].
    by apply events_lookup_no_date in H.
Qed.

Lemma pushes_date_true messages i m :
  pushes_date LocalTZA messages i m = true ->
  i = 0%nat \/ exists p, messages !! (i - 1)%nat = Some p
    /\ getDay LocalTZA (msg_created_at p) <> getDay LocalTZA (msg_created_at m).
Proof.
  unfold pushes_date. destruct i as [|i]; [by left|]. simpl.
  rewrite Nat.sub_0_r. destruct (messages !! i) as [p|] eqn:Hp.
  - destruct (Z.eqb_spec (getDay LocalTZA (msg_created_at m)) (getDay LocalTZA (msg_created_at p)));
      simpl; [done|]. intros _. right. exists p. split; [done|]. congruence.
  - by rewrite Z.eqb_refl.
Qed.

Lemma pushes_date_intro messages i m :
  (i = 0%nat \/ exists p, messages !! (i - 1)%nat = Some p
     /\ getDay LocalTZA (msg_created_at p) <> getDay LocalTZA (msg_created_at m)) ->
  pushes_date LocalTZA messages i m = true.
Proof.
  unfold pushes_date. destruct i as [|i]; [done|]. simpl. rewrite Nat.sub_0_r.
  intros [?|(p & -> & Hne)]; [done|].
  destruct (Z.eqb_spec (getDay LocalTZA (msg_created_at m)) (getDay LocalTZA (msg_created_at p)));
    [congruence|done].
Qed.

Lemma pushes_with_date messages i m :
  passes_through m = false ->
  pushes_date LocalTZA messages i m = true ->
  pushes messages i m
  = EDate (msg_created_at m) :: EMsg m :: map EEvent (eventsNextToMessage eventHistory m).
Proof. unfold insertDates_pushes. by intros -> ->. Qed.

(** Two instants on different days of the week are on different days. *)
Lemma getDay_calendarDay t u :
  getDay LocalTZA t <> getDay LocalTZA u -> calendarDay LocalTZA t <> calendarDay LocalTZA u.
Proof. unfold getDay, calendarDay. congruence. Qed.

(** C1 (as amended): [insertDates] puts a date marker immediately before
    the message at input position 0 and before every later message whose
    local day of the week differs from that of the input message just
    before it (read markers and soft-deleted messages never get one); and
    every date marker of the output stands immediately before such a
    message: one at position 0, or one whose calendar day in local time
    differs from the preceding input message's.  The message an output
    position belongs to is told by the number of message entries before
    it. *)
Theorem insertDates_date_markers (messages : list Message) :
  let out := insertDates LocalTZA eventHistory messages in
  (forall i m, messages !! i = Some m -> passes_through m = false ->
     (i = 0%nat \/ exists p, messages !! (i - 1)%nat = Some p
        /\ getDay LocalTZA (msg_created_at p) <> getDay LocalTZA (msg_created_at m)) ->
     exists j, out !! j = Some (EDate (msg_created_at m))
       /\ out !! S j = Some (EMsg m)
       /\ count_messages (take j out) = i)
  /\
  (forall j d, out !! j = Some (EDate d) ->
     exists i m, messages !! i = Some m /\ passes_through m = false
       /\ d = msg_created_at m
       /\ out !! S j = Some (EMsg m)
       /\ count_messages (take j out) = i
       /\ (i = 0%nat \/ exists p, messages !! (i - 1)%nat = Some p
            /\ getDay LocalTZA (msg_created_at p) <> getDay LocalTZA (msg_created_at m)
            /\ calendarDay LocalTZA (msg_created_at p) <> calendarDay LocalTZA (msg_created_at m))).
Proof.
  intros out. subst out. rewrite insertDates_blocks.
  assert (Hcount : forall i m, messages !! i = Some m ->
            count_messages (concat (imap (pushes messages) (take i messages))) = i).
  { intros i m Hi. rewrite count_messages_blocks by apply pushes_one_message.
    rewrite length_take. apply lookup_lt_Some in Hi. lia. }
  split.
  - intros i m Hi Hreg Hday.
    rewrite (blocks_split _ _ _ _ Hi).
    rewrite (pushes_with_date _ _ _ Hreg (pushes_date_intro _ _ _ Hday)).
    set (pre := concat (imap (pushes messages) (take i messages))).
    exists (length pre). split; [|split].
    + rewrite lookup_app_r by lia. by rewrite Nat.sub_diag.
    + rewrite lookup_app_r by lia. by replace (S (length pre) - length pre)%nat with 1%nat by lia.
    + rewrite take_app_length. by apply (Hcount i m).
  - intros j d Hj.
    pose proof (blocks_lookup _ _ _ _ Hj) as (i & m & k & Hi & Hk & Hpos).
    apply pushes_date_inv in Hk as (-> & -> & Hreg & Hdate & Hblock).
    rewrite Nat.add_0_r in Hpos. subst j.
    rewrite (blocks_split _ _ _ _ Hi), Hblock.
    set (pre := concat (imap (pushes messages) (take i messages))).
    exists i, m. split; [done|]. split; [done|]. split; [done|]. split; [|split].
    + rewrite lookup_app_r by lia. by replace (S (length pre) - length pre)%nat with 1%nat by lia.
    + rewrite take_app_length. by apply (Hcount i m).
    + destruct (pushes_date_true _ _ _ Hdate) as [?|(p & Hp & Hne)]; [by left|].
      right. exists p. split; [done|]. split; [done|]. by apply getDay_calendarDay.
Qed.

End DateMarkers.

(** The scenario of the design document. *)
Example insertDates_monday_tuesday :
  insertDates utc ∅ [m1; m2; m3]
  = [EDate monday; EMsg m1; EMsg m2; EDate tuesday; EMsg m3].
Proof. vm_compute. reflexivity. Qed.

(** A message on the same day of the week, a week later, gets no date
    marker although its calendar day differs. *)
Example insertDates_a_week_later :
  insertDates utc ∅ [m1; m1_next_week] = [EDate monday; EMsg m1; EMsg m1_next_week]
  /\ calendarDay utc (msg_created_at m1) <> calendarDay utc (msg_created_at m1_next_week).
Proof. split; vm_compute; [reflexivity | discriminate]. Qed.

(** The rule at the Tuesday message of the scenario, and at its marker. *)
Lemma insertDates_date_markers_witness :
  let out := insertDates utc ∅ [m1; m2; m3] in
  (exists j, out !! j = Some (EDate (msg_created_at m3))
     /\ out !! S j = Some (EMsg m3)
     /\ count_messages (take j out) = 2%nat)
  /\ (exists i m, [m1; m2; m3] !! i = Some m /\ passes_through m = false
       /\ tuesday = msg_created_at m
       /\ out !! 4%nat = Some (EMsg m)
       /\ count_messages (take 3 out) = i
       /\ (i = 0%nat \/ exists p, [m1; m2; m3] !! (i - 1)%nat = Some p
            /\ getDay utc (msg_created_at p) <> getDay utc (msg_created_at m)
            /\ calendarDay utc (msg_created_at p) <> calendarDay utc (msg_created_at m))).
Proof.
  destruct (insertDates_date_markers utc ∅ [m1; m2; m3]) as [Hthere Honly].
  split.
  - apply (Hthere 2%nat m3); [reflexivity | reflexivity |].
    right. exists m2. split; [reflexivity|]. vm_compute. discriminate.
  - apply (Honly 3%nat tuesday). reflexivity.
Defined.

(** C1 as stated fails: when the input begins with a soft-deleted
    message, the first regular message of the same day gets no date
    marker. *)
Lemma insertDates_no_marker_after_deleted :
  ~ date_before_first_regular [d0; m2] (insertDates utc ∅ [d0; m2]).
Proof.
  intros H. destruct (H m2 eq_refl) as (pre & post & Heq).
  vm_compute in Heq.
  destruct pre as [|x [|y pre]]; simpl in Heq; try discriminate.
  inversion Heq as [[Hx Hy Hpre]]. destruct pre; discriminate.
Qed.

(** ** Retained messages (C8) *)

(** C8 (as amended): the message entries of the timeline [insertDates]
    builds are the input messages, all of them and in input order, so
    their number is the number of input messages; soft-deleted messages
    and read markers are among them. *)
Theorem insertDates_keeps_every_message (LocalTZA : Z -> Z)
    (eventHistory : gmap string (list Event)) (messages : list Message) :
  List.filter is_message (insertDates LocalTZA eventHistory messages) = map EMsg messages
  /\ count_messages (insertDates LocalTZA eventHistory messages) = length messages.
Proof.
  rewrite insertDates_blocks. split.
  - apply filter_is_message_blocks, pushes_one_message.
  - apply count_messages_blocks, pushes_one_message.
Qed.

(** C8 as stated fails: a soft-deleted input message is a message entry
    of the output, so the entries outnumber the non-deleted inputs. *)
Lemma insertDates_counts_deleted :
  count_messages (insertDates utc ∅ [d0]) <> length (List.filter not_deleted [d0]).
Proof. vm_compute. discriminate. Qed.

(** ** Events of the sentinel bucket (C7) *)

Section FirstEvents.

Variable LocalTZA : Z -> Z.
Variable eventHistory : gmap string (list Event).

Abbreviation pushes := (insertDates_pushes LocalTZA eventHistory).

Lemma eventsNextToMessage_events_after m :
  passes_through m = false ->
  eventsNextToMessage eventHistory m = events_after eventHistory m.
Proof.
  intros Hreg. unfold eventsNextToMessage, events_after, or_else, truthy_string, property_key.
  rewrite Hreg.
  assert (Hbucket : forall k, match eventHistory !! k with
                              | Some es => if (0 <? length es)%nat then es else []
                              | None => []
                              end = default [] (eventHistory !! k)).
  { intros k. destruct (eventHistory !! k) as [[|e es]|]; reflexivity. }
  destruct (msg_id m) as [s|]; [|apply Hbucket].
  destruct (String.eqb s ""); simpl; apply Hbucket.
Qed.

Lemma pushes_head messages i m :
  exists x t, pushes messages i m = x :: t /\ is_event x = false.
Proof.
  unfold insertDates_pushes.
  destruct (passes_through m); [by eexists _, _|].
  destruct (pushes_date _ _ _ _); by eexists _, _.
Qed.

Lemma blocks_head_not_event (f : nat -> Message -> list Entry) messages :
  (forall i m, exists x t, f i m = x :: t /\ is_event x = false) ->
  head_is_event (concat (imap f messages)) = false.
Proof.
  intros Hf. destruct messages as [|m messages]; simpl; [done|].
  destruct (Hf 0%nat m) as (x & t & -> & Hx). by destruct x.
Qed.

(** C7 (as amended): after each input message, [insertDates] puts the
    events of exactly one bucket, and the next entry is no event.  The
    bucket is the sentinel ["first"] for every message that is neither a
    read marker nor soft-deleted and has no id (or an empty one), as
    often as there are such messages; it is the bucket of its own id for
    such a message with an id; a read marker or soft-deleted message is
    followed by no events at all. *)
Theorem insertDates_events_after (messages : list Message) (i : nat) (m : Message) :
  messages !! i = Some m ->
  exists pre post,
    insertDates LocalTZA eventHistory messages
    = pre ++ EMsg m :: map EEvent (events_after eventHistory m) ++ post
    /\ count_messages pre = i
    /\ head_is_event post = false.
Proof.
  intros Hi. rewrite insertDates_blocks, (blocks_split _ _ _ _ Hi).
  set (pre := concat (imap (pushes messages) (take i messages))).
  set (post := concat (imap (fun j => pushes messages (S i + j)) (drop (S i) messages))).
  assert (Hpre : count_messages pre = i).
  { unfold pre. rewrite count_messages_blocks by apply pushes_one_message.
    rewrite length_take. apply lookup_lt_Some in Hi. lia. }
  assert (Hpost : head_is_event post = false).
  { apply blocks_head_not_event. intros j x. apply pushes_head. }
  unfold insertDates_pushes.
  destruct (passes_through m) eqn:Hreg.
  - exists pre, post. unfold events_after. rewrite Hreg. simpl. done.
  - rewrite (eventsNextToMessage_events_after _ Hreg).
    destruct (pushes_date _ _ _ _).
    + exists (pre ++ [EDate (msg_created_at m)]), post.
      split; [by rewrite <- !app_assoc|]. split; [|done].
      unfold count_messages in *. rewrite List.filter_app, length_app. simpl. lia.
    + exists pre, post. done.
Qed.

End FirstEvents.

(** The events after a message without id. *)
Lemma insertDates_events_after_witness :
  exists pre post,
    insertDates utc first_bucket [pending]
    = pre ++ EMsg pending :: map EEvent (events_after first_bucket pending) ++ post
    /\ count_messages pre = 0%nat
    /\ head_is_event post = false.
Proof. apply (insertDates_events_after utc first_bucket [pending] 0 pending). reflexivity. Defined.

(** The events of the sentinel bucket follow each message without id. *)
Example insertDates_first_events_twice :
  insertDates utc first_bucket [pending; pending]
  = [EDate 100; EMsg pending; EEvent (member_added 50); EMsg pending; EEvent (member_added 50)].
Proof. vm_compute. reflexivity. Qed.

(** C7 as stated fails: when the first message has an id, the events of
    the sentinel bucket are not appended after it, nor anywhere. *)
Lemma insertDates_first_events_dropped :
  ~ first_events_after_first_message first_bucket [m1] (insertDates utc first_bucket [m1]).
Proof.
  intros H. destruct (H m1 [] [member_added 50] eq_refl eq_refl) as (pre & post & Heq & _).
  vm_compute in Heq.
  destruct pre as [|x [|y [|z pre]]]; simpl in Heq; discriminate.
Qed.

(** ** The order of the rendered timeline (C2) *)

(** The sort only reorders. *)
Lemma sort_insert_perm x (l : list Entry) : sort_insert x l ≡ₚ x :: l.
Proof.
  induction l as [|y l IH]; simpl; [done|].
  destruct (SortCompare x y <=? 0)%Z; [done|].
  rewrite IH. apply Permutation_swap.
Qed.

Lemma array_sort_perm (l : list Entry) : array_sort l ≡ₚ l.
Proof.
  induction l as [|x l IH]; simpl; [done|].
  by rewrite sort_insert_perm, IH.
Qed.

(** Where the comparator ties every pair, the sort moves nothing. *)
Lemma array_sort_all_ties (l : list Entry) :
  (forall a b, a ∈ l -> b ∈ l -> SortCompare a b = 0%Z) -> array_sort l = l.
Proof.
  induction l as [|x l IH]; intros Hties; simpl; [done|].
  rewrite IH by (intros a b Ha Hb; apply Hties; by right).
  destruct l as [|y l]; simpl; [done|].
  rewrite Hties; [done| by left | right; by left].
Qed.

(** The comparator ties every pair that has a date marker or an event
    wrapper in it. *)
Lemma SortCompare_marker a b :
  is_message a && is_message b = false -> SortCompare a b = 0%Z.
Proof. by destruct a, b. Qed.

(** C2 fails on the code: the comparator of [render] reads [created_at],
    which date markers and event wrappers do not have, so an event older
    than the message it follows stays behind it. *)
Theorem render_not_sorted_by_timestamp :
  allMessages (render utc [pending] first_bucket [] false)
  = [EDate 100; EMsg pending; EEvent (member_added 50)]
  /\ ~ sorted_by_timestamp (allMessages (render utc [pending] first_bucket [] false)).
Proof.
  split; [vm_compute; reflexivity|].
  intros H. vm_compute in H.
  apply StronglySorted_inv in H as [_ H].
  apply Forall_cons in H as [_ H]. apply Forall_cons in H as [H _].
  vm_compute in H. by apply H.
Qed.

(** All three comparisons of that input are ties, so any stable sort
    leaves the timeline as [insertDates] built it. *)
Example render_failing_input_ties :
  forall a b, a ∈ insertDates utc first_bucket [pending] ->
              b ∈ insertDates utc first_bucket [pending] -> SortCompare a b = 0%Z.
Proof.
  intros a b Ha Hb. vm_compute in Ha, Hb.
  repeat (apply elem_of_cons in Ha as [->|Ha]); [..|by apply elem_of_nil in Ha];
  repeat (apply elem_of_cons in Hb as [->|Hb]); try (by apply elem_of_nil in Hb);
  reflexivity.
Qed.

(** ** Read states (C3, C4) *)

Section ReadStates.

Variable messages : list Entry.

Lemma readData_init_lookup k :
  readData_init messages !! k
  = if bool_decide (k ∈ map entry_key messages) then Some [] else None.
Proof.
  unfold readData_init.
  induction messages as [|x l IH] using rev_ind.
  - apply lookup_empty.
  - rewrite fold_left_app, map_app. simpl.
    fold (entry_key x).
    destruct (decide (entry_key x = k)) as [->|Hne].
    + rewrite lookup_insert_eq, bool_decide_eq_true_2; [done|].
      apply elem_of_app. right. by left.
    + rewrite lookup_insert_ne, IH by done.
      rewrite (bool_decide_ext (k ∈ map entry_key l ++ [entry_key x]) (k ∈ map entry_key l)); [done|].
      rewrite elem_of_app, list_elem_of_singleton. intuition congruence.
Qed.

(** The scan leaves the id of the last entry updated before [t]. *)
Lemma userLastReadMsgId_last t :
  userLastReadMsgId messages t
  = match last_read_entry messages t with
    | Some x => entry_id x
    | None => None
    end.
Proof.
  unfold userLastReadMsgId, last_read_entry.
  induction messages as [|x l IH] using rev_ind; simpl; [done|].
  rewrite fold_left_app, List.filter_app. simpl.
  unfold updated_before at 2.
  destruct (entry_updated_at x) as [u|]; simpl.
  - destruct (u <? t)%Z.
    + by rewrite last_snoc.
    + by rewrite app_nil_r.
  - by rewrite app_nil_r.
Qed.

Lemma last_read_entry_elem t x :
  last_read_entry messages t = Some x -> x ∈ messages.
Proof.
  unfold last_read_entry. intros H.
  assert (Hin : x ∈ List.filter (updated_before t) messages).
  { apply last_Some in H as [l' ->]. apply elem_of_app. right. by left. }
  apply list_elem_of_In, List.filter_In in Hin as [Hin _].
  by apply list_elem_of_In.
Qed.

(** The id the scan leaves is a key of the index. *)
Lemma userLastReadMsgId_key t k :
  userLastReadMsgId messages t = Some k -> k ∈ map entry_key messages.
Proof.
  rewrite userLastReadMsgId_last.
  destruct (last_read_entry messages t) as [x|] eqn:Hx; [|done].
  intros Hid. apply last_read_entry_elem in Hx.
  apply list_elem_of_In, List.in_map_iff. exists x.
  split; [|by apply list_elem_of_In].
  unfold entry_key. by rewrite Hid.
Qed.

Lemma readers_of_stop r read k :
  last_read r = None -> readers_of messages (r :: read) k = [].
Proof. unfold readers_of. simpl. by intros ->. Qed.

Lemma readers_of_next r read t k :
  last_read r = Some t ->
  readers_of messages (r :: read) k
  = (if bool_decide (userLastReadMsgId messages t = Some k) then [read_user r] else [])
    ++ readers_of messages read k.
Proof.
  intros Ht.
  assert (Htarget : read_target messages r = userLastReadMsgId messages t).
  { unfold read_target. rewrite Ht. symmetry. apply userLastReadMsgId_last. }
  unfold readers_of. cbn [records_processed]. rewrite Ht. cbn [List.filter].
  destruct (decide (userLastReadMsgId messages t = Some k)) as [Hk|Hk].
  - by rewrite !bool_decide_eq_true_2 by congruence.
  - by rewrite !bool_decide_eq_false_2 by congruence.
Qed.

Lemma getReadStates_loop_lookup read (index : gmap string (list User)) k :
  (forall k', k' ∈ map entry_key messages -> is_Some (index !! k')) ->
  getReadStates_loop messages read index !! k
  = (fun l => l ++ readers_of messages read k) <$> index !! k.
Proof.
  revert index. induction read as [|r read IH]; intros index Hkeys.
  - simpl. destruct (index !! k); simpl; [|done].
    unfold readers_of. simpl. by rewrite app_nil_r.
  - simpl. destruct (last_read r) as [t|] eqn:Ht.
    2:{ rewrite (readers_of_stop _ _ _ Ht).
        destruct (index !! k); simpl; [|done]. by rewrite app_nil_r. }
    rewrite (readers_of_next _ _ _ _ Ht).
    destruct (userLastReadMsgId messages t) as [k'|] eqn:Hk'.
    + destruct (Hkeys k' (userLastReadMsgId_key _ _ Hk')) as [l Hl].
      rewrite IH.
      2:{ intros k'' Hin. destruct (decide (k' = k'')) as [->|Hne].
          - rewrite lookup_insert_eq. eauto.
          - rewrite lookup_insert_ne by done. by apply Hkeys. }
      destruct (decide (k' = k)) as [->|Hne].
      * rewrite lookup_insert_eq, Hl. simpl.
        rewrite bool_decide_eq_true_2 by done.
        by rewrite <- app_assoc.
      * rewrite lookup_insert_ne by done.
        rewrite bool_decide_eq_false_2 by congruence. done.
    + rewrite IH by done. by rewrite bool_decide_eq_false_2.
Qed.

(** The read index, key by key. *)
Lemma getReadStates_lookup read k :
  getReadStates messages read !! k
  = if bool_decide (k ∈ map entry_key messages)
    then Some (readers_of messages read k) else None.
Proof.
  unfold getReadStates. rewrite getReadStates_loop_lookup.
  - rewrite readData_init_lookup. by destruct (bool_decide _).
  - intros k' Hin. rewrite readData_init_lookup, bool_decide_eq_true_2 by done. eauto.
Qed.

(** Nothing behind a record without [last_read] is looked at. *)
Lemma getReadStates_loop_break before r after (index : gmap string (list User)) :
  last_read r = None ->
  getReadStates_loop messages (before ++ r :: after) index
  = getReadStates_loop messages before index.
Proof.
  intros Hr. revert index. induction before as [|r' before IH]; intros index; simpl.
  - by rewrite Hr.
  - destruct (last_read r'); [apply IH|done].
Qed.

End ReadStates.

(** C3 (as amended): [getReadStates] goes through the records in
    iteration order; a record with a [last_read] is appended to the list
    under the id of the last entry whose [updated_at] is strictly before
    it, when there is such an entry and it has an id (nothing is filed
    for the record otherwise); and the first record without [last_read]
    ends the processing, whatever follows it. *)
Theorem getReadStates_readers (messages : list Entry) (read : list ReadState) :
  (forall k, getReadStates messages read !! k
     = if bool_decide (k ∈ map entry_key messages)
       then Some (readers_of messages read k) else None)
  /\ (forall before r after, read = before ++ r :: after -> last_read r = None ->
        getReadStates messages read = getReadStates messages before).
Proof.
  split.
  - apply getReadStates_lookup.
  - intros before r after -> Hr. unfold getReadStates.
    by apply getReadStates_loop_break.
Qed.

(** A record without [last_read] hides the records behind it. *)
Lemma getReadStates_readers_witness :
  getReadStates [EMsg sent] [bob_read; alice_unread; bob_read]
  = getReadStates [EMsg sent] [bob_read].
Proof.
  destruct (getReadStates_readers [EMsg sent] [bob_read; alice_unread; bob_read]) as [_ Hstop].
  apply (Hstop [bob_read] alice_unread [bob_read]); reflexivity.
Defined.

(** A reader past a message with an id is filed under it. *)
Example getReadStates_sent :
  getReadStates [EDate 10; EMsg sent] [bob_read] !! "a" = Some [bob].
Proof. vm_compute. reflexivity. Qed.

(** C3 as stated fails: when the last older message has no id yet, the
    reader is filed nowhere, not under that message. *)
Lemma getReadStates_unsent_not_filed :
  ~ filed_under_last_older [EMsg sent; EMsg unsent] [bob_read]
      (getReadStates [EMsg sent; EMsg unsent] [bob_read]).
Proof.
  intros H.
  specialize (H bob_read 30%Z (EMsg unsent)).
  assert (Hin : bob ∈ @nil User); [|by apply elem_of_nil in Hin].
  apply H; [by left | reflexivity | reflexivity].
Qed.

Section ReadIndexKeys.

Variable LocalTZA : Z -> Z.


End ReadIndexKeys.



(** ** Group styles (C5) *)

Section GroupStyles.

Variable noGroupByUser : bool.
Variable m : list Entry.

Abbreviation step :=
  (fun (messageGroupStyles : gmap string (list string)) i =>
     match getGroupStyles_assigns noGroupByUser m i with
     | Some (k, groupStyles) => <[k := groupStyles]> messageGroupStyles
     | None => messageGroupStyles
     end).

(** An iteration assigns under the key of the message it is at. *)
Lemma getGroupStyles_assigns_inv i k gs :
  getGroupStyles_assigns noGroupByUser m i = Some (k, gs) ->
  exists x, m !! i = Some (EMsg x) /\ k = entry_key (EMsg x).
Proof.
  unfold getGroupStyles_assigns.
  destruct (m !! i) as [[x| |]|]; try done.
  destruct (String.eqb _ _); [done|]. destruct (String.eqb _ _); [done|].
  intros [= <- _]. by exists x.
Qed.

(** The map holds what the last iteration assigning a key assigned. *)
Lemma getGroupStyles_lookup_last i k gs :
  getGroupStyles_assigns noGroupByUser m i = Some (k, gs) ->
  (forall j gs', (i < j)%nat -> getGroupStyles_assigns noGroupByUser m j <> Some (k, gs')) ->
  getGroupStyles noGroupByUser m !! k = Some gs.
Proof.
  intros Hi Hlast. unfold getGroupStyles.
  assert (Hlen : (i < length m)%nat).
  { apply getGroupStyles_assigns_inv in Hi as (x & Hx & _). by apply lookup_lt_Some in Hx. }
  revert Hlen. generalize (length m) as n.
  induction n as [|n IH]; intros Hlen; [lia|].
  rewrite seq_S, fold_left_app. simpl.
  destruct (decide (i = n)) as [->|Hne].
  - rewrite Hi. apply lookup_insert_eq.
  - assert (Hlt : (i < n)%nat) by lia.
    destruct (getGroupStyles_assigns noGroupByUser m n) as [[k' gs']|] eqn:Hn; [|by apply IH].
    destruct (decide (k' = k)) as [->|Hk]; [by destruct (Hlast n gs' Hlt)|].
    rewrite lookup_insert_ne by done. by apply IH.
Qed.

Lemma distinct_keys_index (l : list Entry) i j a b :
  distinct_keys l -> l !! i = Some (EMsg a) -> l !! j = Some (EMsg b) ->
  entry_key (EMsg a) = entry_key (EMsg b) -> i = j.
Proof.
  unfold distinct_keys. revert i j.
  induction l as [|x l IH]; intros i j Hnd Hi Hj Hkey; [done|].
  assert (Htail : NoDup (map entry_key (List.filter is_message l))).
  { simpl in Hnd. destruct (is_message x); [|done]. by apply NoDup_cons in Hnd as [_ ?]. }
  assert (Hhead : forall c n, x = EMsg c -> l !! n = Some (EMsg a) \/ l !! n = Some (EMsg b) ->
                    entry_key (EMsg c) = entry_key (EMsg a) -> entry_key (EMsg a) = entry_key (EMsg b) -> False).
  { intros c n -> Hn Hc Hab. simpl in Hnd. apply NoDup_cons in Hnd as [Hnin _]. apply Hnin.
    apply list_elem_of_In, List.in_map_iff.
    destruct Hn as [Hn|Hn]; [exists (EMsg a)|exists (EMsg b)];
      (split; [congruence|]); apply List.filter_In; (split; [|done]);
      apply list_elem_of_In, list_elem_of_lookup; eauto. }
  destruct i as [|i], j as [|j]; simpl in Hi, Hj.
  - done.
  - inversion Hi; subst x. destruct (Hhead a j); auto.
  - inversion Hj; subst x. destruct (Hhead b i); auto.
  - f_equal. by apply IH.
Qed.

(** Where the keys are distinct, the map holds what an iteration assigned. *)
Lemma getGroupStyles_lookup_distinct i k gs :
  distinct_keys m ->
  getGroupStyles_assigns noGroupByUser m i = Some (k, gs) ->
  getGroupStyles noGroupByUser m !! k = Some gs.
Proof.
  intros Hnd Hi. apply (getGroupStyles_lookup_last i); [done|].
  intros j gs' Hlt Hj.
  apply getGroupStyles_assigns_inv in Hi as (a & Ha & ->).
  apply getGroupStyles_assigns_inv in Hj as (b & Hb & Hk).
  assert (i = j) by (by apply (distinct_keys_index m i j a b)). lia.
Qed.

(** What the map holds, some iteration assigned. *)
Lemma getGroupStyles_lookup_inv k gs :
  getGroupStyles noGroupByUser m !! k = Some gs ->
  exists i, getGroupStyles_assigns noGroupByUser m i = Some (k, gs).
Proof.
  unfold getGroupStyles. generalize (length m) as n.
  induction n as [|n IH]; [simpl; by rewrite lookup_empty|].
  rewrite seq_S, fold_left_app. simpl.
  destruct (getGroupStyles_assigns noGroupByUser m n) as [[k' gs']|] eqn:Hn; [|done].
  destruct (decide (k' = k)) as [->|Hk].
  - rewrite lookup_insert_eq. intros [= ->]. eauto.
  - by rewrite lookup_insert_ne.
Qed.

End GroupStyles.

(** A groupable neighbour of the same user does not end the group. *)
Lemma ends_group_groupable userId x :
  groupable x = true -> user_id (msg_user x) = userId ->
  ends_group userId (Some (EMsg x)) = false.
Proof.
  unfold groupable, is_marker_type, not_deleted, ends_group. simpl.
  intros H <-. rewrite String.eqb_refl.
  repeat (apply andb_prop in H as [H ?]).
  destruct (String.eqb (msg_type x) "message.date"); [done|].
  destruct (String.eqb (msg_type x) "system"); [done|].
  destruct (String.eqb (msg_type x) "channel.event"); [done|].
  destruct (String.eqb (msg_type x) "error"); [done|].
  destruct (bool_decide _); [done|].
  by rewrite H.
Qed.

Lemma groupable_inv x :
  groupable x = true ->
  is_marker_type x = false /\ deleted_or_error x = false
  /\ (length (msg_attachments x) =? 0)%nat = true.
Proof.
  unfold groupable, not_deleted, deleted_or_error. intros H.
  repeat (apply andb_prop in H as [H ?]).
  destruct (is_marker_type x); [done|].
  destruct (String.eqb (msg_type x) "error"); [done|].
  destruct (bool_decide _); done.
Qed.

(** What an iteration assigns at a message, in terms of its neighbours. *)
Lemma getGroupStyles_assigns_message noGroupByUser (m : list Entry) i x :
  m !! i = Some (EMsg x) -> is_marker_type x = false ->
  getGroupStyles_assigns noGroupByUser m i
  = Some (entry_key (EMsg x),
          groupStyles_of noGroupByUser x
            (ends_group (user_id (msg_user x)) (if (i =? 0)%nat then None else m !! (i - 1)%nat))
            (ends_group (user_id (msg_user x)) (m !! (i + 1)%nat))).
Proof.
  unfold getGroupStyles_assigns, is_marker_type. intros -> H. simpl.
  apply orb_false_elim in H as [-> ->]. done.
Qed.

(** C5 (as amended): with grouping by user on, three groupable messages
    of one user in a row, the first of which has nothing or a group end
    before it and the last of which has nothing or a group end after it,
    are assigned [top], [middle] and [bottom]; a message with attachments
    is assigned [single] whatever its neighbours and the flag; and when
    [noGroupByUser] is set every message is assigned [single].  Where no
    two messages share a key, what is assigned is what the returned map
    holds. *)
Theorem getGroupStyles_styles (m : list Entry) :
  (forall i a b c,
     m !! i = Some (EMsg a) -> m !! (i + 1)%nat = Some (EMsg b) ->
     m !! (i + 2)%nat = Some (EMsg c) ->
     groupable a = true -> groupable b = true -> groupable c = true ->
     user_id (msg_user a) = user_id (msg_user b) ->
     user_id (msg_user b) = user_id (msg_user c) ->
     ends_group (user_id (msg_user a)) (if (i =? 0)%nat then None else m !! (i - 1)%nat) = true ->
     ends_group (user_id (msg_user c)) (m !! (i + 3)%nat) = true ->
     (getGroupStyles_assigns false m i = Some (entry_key (EMsg a), ["top"])
      /\ getGroupStyles_assigns false m (i + 1) = Some (entry_key (EMsg b), ["middle"])
      /\ getGroupStyles_assigns false m (i + 2) = Some (entry_key (EMsg c), ["bottom"]))
     /\ (distinct_keys m ->
         getGroupStyles false m !! entry_key (EMsg a) = Some ["top"]
         /\ getGroupStyles false m !! entry_key (EMsg b) = Some ["middle"]
         /\ getGroupStyles false m !! entry_key (EMsg c) = Some ["bottom"]))
  /\ (forall noGroupByUser i x,
        m !! i = Some (EMsg x) -> is_marker_type x = false -> msg_attachments x <> [] ->
        getGroupStyles_assigns noGroupByUser m i = Some (entry_key (EMsg x), ["single"])
        /\ (distinct_keys m ->
            getGroupStyles noGroupByUser m !! entry_key (EMsg x) = Some ["single"]))
  /\ (forall i x,
        m !! i = Some (EMsg x) -> is_marker_type x = false ->
        getGroupStyles_assigns true m i = Some (entry_key (EMsg x), ["single"]))
  /\ (forall k gs, getGroupStyles true m !! k = Some gs -> gs = ["single"]).
Proof.
  assert (Hset : forall i x, m !! i = Some (EMsg x) -> is_marker_type x = false ->
            getGroupStyles_assigns true m i = Some (entry_key (EMsg x), ["single"])).
  { intros i x Hx Hty. by rewrite (getGroupStyles_assigns_message _ _ _ _ Hx Hty). }
  split; [|split; [|split]].
  - intros i a b c Ha Hb Hc Hga Hgb Hgc Hab Hbc Htop Hbottom.
    pose proof (groupable_inv _ Hga) as (Hta & Hda & Haa).
    pose proof (groupable_inv _ Hgb) as (Htb & Hdb & Hab').
    pose proof (groupable_inv _ Hgc) as (Htc & Hdc & Hac).
    assert (H1 : getGroupStyles_assigns false m i = Some (entry_key (EMsg a), ["top"])).
    { rewrite (getGroupStyles_assigns_message _ _ _ _ Ha Hta), Htop, Hb.
      rewrite (ends_group_groupable _ _ Hgb) by done.
      unfold groupStyles_of. simpl. by rewrite Haa. }
    assert (H2 : getGroupStyles_assigns false m (i + 1) = Some (entry_key (EMsg b), ["middle"])).
    { rewrite (getGroupStyles_assigns_message _ _ _ _ Hb Htb).
      replace (i + 1 =? 0)%nat with false by (symmetry; apply Nat.eqb_neq; lia).
      replace (i + 1 - 1)%nat with i by lia.
      replace (i + 1 + 1)%nat with (i + 2)%nat by lia.
      rewrite Ha, Hc, !ends_group_groupable by done.
      unfold groupStyles_of. simpl. by rewrite Hdb, Hab'. }
    assert (H3 : getGroupStyles_assigns false m (i + 2) = Some (entry_key (EMsg c), ["bottom"])).
    { rewrite (getGroupStyles_assigns_message _ _ _ _ Hc Htc).
      replace (i + 2 =? 0)%nat with false by (symmetry; apply Nat.eqb_neq; lia).
      replace (i + 2 - 1)%nat with (i + 1)%nat by lia.
      replace (i + 2 + 1)%nat with (i + 3)%nat by lia.
      rewrite Hb, Hbottom, ends_group_groupable by done.
      unfold groupStyles_of. simpl. by rewrite Hdc, Hac. }
    split; [done|]. intros Hnd.
    split; [|split]; eapply getGroupStyles_lookup_distinct; eauto.
  - intros noGroupByUser i x Hx Hty Hatt.
    assert (H1 : getGroupStyles_assigns noGroupByUser m i = Some (entry_key (EMsg x), ["single"])).
    { rewrite (getGroupStyles_assigns_message _ _ _ _ Hx Hty).
      unfold groupStyles_of. destruct (msg_attachments x); [done|]. simpl.
      by destruct noGroupByUser. }
    split; [done|]. intros Hnd. eapply getGroupStyles_lookup_distinct; eauto.
  - exact Hset.
  - intros k gs Hk. apply getGroupStyles_lookup_inv in Hk as (i & Hi).
    pose proof (getGroupStyles_assigns_inv _ _ _ _ _ Hi) as (x & Hx & ->).
    destruct (is_marker_type x) eqn:Hty.
    + unfold getGroupStyles_assigns, is_marker_type in *. rewrite Hx in Hi. simpl in Hi.
      apply orb_prop in Hty as [Hty|Hty]; rewrite Hty in Hi; [done|].
      by destruct (String.eqb (msg_type x) "message.date").
    + rewrite (Hset _ _ Hx Hty) in Hi. congruence.
Qed.

(** A group of three, a message with a picture, and the flag set. *)
Lemma getGroupStyles_styles_witness :
  (getGroupStyles false group_of_three !! "x" = Some ["top"]
   /\ getGroupStyles false group_of_three !! "y" = Some ["middle"]
   /\ getGroupStyles false group_of_three !! "z" = Some ["bottom"])
  /\ getGroupStyles_assigns false [EMsg m1; EMsg with_picture; EMsg m2] 1
     = Some ("p", ["single"])
  /\ getGroupStyles_assigns true group_of_three 2 = Some ("y", ["single"]).
Proof.
  split; [|split].
  - destruct (getGroupStyles_styles group_of_three) as (Hthree & _).
    destruct (Hthree 1%nat (plain_message (Some "x") 1 alice) (plain_message (Some "y") 2 alice)
                (plain_message (Some "z") 3 alice)) as [_ Hmap]; try reflexivity.
    apply Hmap. unfold distinct_keys. apply (bool_decide_unpack _). vm_compute. exact I.
  - destruct (getGroupStyles_styles [EMsg m1; EMsg with_picture; EMsg m2]) as (_ & Hpicture & _).
    apply (Hpicture false 1%nat with_picture); [reflexivity | reflexivity | discriminate].
  - destruct (getGroupStyles_styles group_of_three) as (_ & _ & Hflag & _).
    apply (Hflag 2%nat (plain_message (Some "y") 2 alice)); reflexivity.
Defined.

(** C5 as stated fails: of four messages of one user in a row, the
    second is the first of three in a row and is assigned [middle]. *)
Lemma getGroupStyles_four_in_a_row :
  ~ any_three_in_a_row four_in_a_row.
Proof.
  intros H.
  destruct (H 1%nat (plain_message (Some "x") 2 alice) (plain_message (Some "y") 3 alice)
              (plain_message (Some "z") 4 alice)) as (Htop & _); try reflexivity.
  vm_compute in Htop. discriminate.
Qed.

(** ** New-message notification (C6) *)

Section Notification.

Variable client : Client.
Variables messages prevMessages : list Message.
Variable scrollOffset : option Z.
Variable scrollHeight : Z.

(** Restoring the scroll position never scrolls to the bottom. *)
Lemma restore_scroll_no_bottom snapshot :
  ScrollToBottom ∉ restore_scroll client messages scrollHeight snapshot.
Proof.
  unfold restore_scroll. destruct snapshot as [pos|]; [|apply not_elem_of_nil].
  destruct (last messages) as [lastMessage|].
  - destruct (negb _); repeat (apply not_elem_of_cons; split; [done|]); apply not_elem_of_nil.
  - apply not_elem_of_cons; split; [done|]; apply not_elem_of_nil.
Qed.

(** C6: on an update with a last message before and after: when its id
    changed and the new one is the local user's, the component scrolls
    to the bottom and the notification flag is false afterwards; when
    its id changed, the new one is another user's, the scroll offset is
    above 310 and no notification is pending, the flag becomes true and
    the component does not scroll to the bottom.  When the messages
    before or after are empty, nothing happens beyond the restoring of
    the scroll position, and the state is unchanged. *)
Theorem componentDidUpdate_notification (s : State) (snapshot : option Z) :
  let result := componentDidUpdate client messages prevMessages scrollOffset scrollHeight s snapshot in
  (forall p c, last prevMessages = Some p -> last messages = Some c ->
     msg_id c <> msg_id p -> user_id (msg_user c) = userID client ->
     (ScrollToBottom ∈ fst result) /\ newMessagesNotification (snd result) = false)
  /\ (forall p c offset, last prevMessages = Some p -> last messages = Some c ->
        msg_id c <> msg_id p -> user_id (msg_user c) <> userID client ->
        scrollOffset = Some offset -> (310 < offset)%Z -> newMessagesNotification s = false ->
        (ScrollToBottom ∉ fst result) /\ (snd result) = set_newMessagesNotification true s
        /\ newMessagesNotification (snd result) = true)
  /\ (prevMessages = [] \/ messages = [] ->
        (fst result) = restore_scroll client messages scrollHeight snapshot
        /\ (ScrollToBottom ∉ fst result) /\ (snd result) = s).
Proof.
  intros result. subst result. unfold componentDidUpdate, handle_new_messages.
  split; [|split].
  - intros p c -> -> Hid Howner. cbv beta iota zeta.
    rewrite (bool_decide_eq_false_2 _ Hid).
    apply String.eqb_eq in Howner. rewrite Howner. simpl.
    split; [apply elem_of_app; right; by left|].
    by destruct (newMessagesNotification s) eqn:Hflag.
  - intros p c offset -> -> Hid Howner -> Hup Hquiet. cbv beta iota zeta.
    rewrite (bool_decide_eq_false_2 _ Hid).
    apply String.eqb_neq in Howner. rewrite Howner. simpl.
    apply Z.ltb_lt in Hup. rewrite Hup, Hquiet. simpl.
    rewrite app_nil_r. split; [apply restore_scroll_no_bottom|done].
  - intros Hempty.
    assert (Hnone : last prevMessages = None \/ last messages = None).
    { destruct Hempty as [-> | ->]; auto. }
    assert (Hnothing : match last prevMessages, last messages with
                       | Some _, Some _ => False
                       | _, _ => True
                       end).
    { destruct Hnone as [-> | ->]; [done|]. by destruct (last prevMessages). }
    destruct (last prevMessages), (last messages); try done; simpl;
      rewrite app_nil_r; (split; [done|]); (split; [apply restore_scroll_no_bottom|done]).
Qed.

End Notification.

(** The three updates of the sample inputs. *)
Lemma componentDidUpdate_notification_witness :
  (ScrollToBottom ∈ fst own_update /\ newMessagesNotification (snd own_update) = false)
  /\ ((ScrollToBottom ∉ fst other_update)
      /\ snd other_update = set_newMessagesNotification true quiet
      /\ newMessagesNotification (snd other_update) = true)
  /\ (fst first_update = restore_scroll me [from_alice] 1000 (Some 200%Z)
      /\ (ScrollToBottom ∉ fst first_update)
      /\ snd first_update = quiet).
Proof.
  split; [|split].
  - destruct (componentDidUpdate_notification me [from_alice; from_me] [from_alice]
                (Some 500%Z) 1000 quiet None) as (Hown & _).
    apply (Hown from_alice from_me); [reflexivity | reflexivity | discriminate | reflexivity].
  - destruct (componentDidUpdate_notification me [from_alice; from_bob] [from_alice]
                (Some 500%Z) 1000 quiet None) as (_ & Hother & _).
    apply (Hother from_alice from_bob 500%Z);
      [reflexivity | reflexivity | discriminate | discriminate | reflexivity | lia | reflexivity].
  - destruct (componentDidUpdate_notification me [from_alice] []
                (Some 500%Z) 1000 quiet (Some 200%Z)) as (_ & _ & Hempty).
    apply Hempty. left. reflexivity.
Defined.

(** ** Mentions (C9) *)

Lemma find_none_iff {A} (f : A -> bool) (l : list A) :
  List.find f l = None <-> forall x, x ∈ l -> f x = false.
Proof.
  split.
  - intros H x Hx. apply list_elem_of_In in Hx. by apply (List.find_none f l H).
  - intros H. induction l as [|x l IH]; simpl; [done|].
    rewrite (H x) by (by left). apply IH. intros y Hy. apply H. by right.
Qed.

(** C9 (as amended): what the lookup in the mentioned users finds does
    not decide whether a callback is called.  With both callbacks in the
    props, a mouseover on a [strong] element whose text, its first
    asterisk removed, starts with an at sign calls [onMentionsHover],
    with an undefined user when the name is that of no mentioned user.
    No callback is called when one of the two callbacks is missing, or
    when the target is no such element. *)
Theorem onMentions_user_not_found (e : DomEvent) (mentioned_users : list User) :
  (toLowerCase (target_tagName e) = "strong" ->
   starts_with_at (remove_first "*"%char (target_innerHTML e)) = true ->
   dom_event_type e = "mouseover" ->
   (forall u, u ∈ mentioned_users -> names_user (mention_name e) u = false) ->
   _onMentionsHoverOrClick true true e mentioned_users = [OnMentionsHover e None])
  /\ (forall onMentionsHover onMentionsClick,
        onMentionsHover && onMentionsClick = false ->
        _onMentionsHoverOrClick onMentionsHover onMentionsClick e mentioned_users = [])
  /\ (forall onMentionsHover onMentionsClick,
        toLowerCase (target_tagName e) <> "strong"
        \/ starts_with_at (remove_first "*"%char (target_innerHTML e)) = false ->
        _onMentionsHoverOrClick onMentionsHover onMentionsClick e mentioned_users = []).
Proof.
  unfold _onMentionsHoverOrClick. split; [|split].
  - intros Htag Hat Htype Hnone. simpl.
    rewrite Htag, Hat, Htype. simpl.
    apply find_none_iff in Hnone. unfold mention_name in Hnone. by rewrite Hnone.
  - intros [] []; simpl; done.
  - intros hover click Hno.
    destruct (negb hover || negb click); [done|].
    destruct Hno as [Htag|Hat].
    + apply String.eqb_neq in Htag. by rewrite Htag.
    + rewrite Hat. by rewrite andb_false_r.
Qed.

(** A hover over an unlisted name, a missing callback, another element. *)
Lemma onMentions_user_not_found_witness :
  _onMentionsHoverOrClick true true hover_carol [alice; bob] = [OnMentionsHover hover_carol None]
  /\ _onMentionsHoverOrClick true false hover_carol [alice; bob] = []
  /\ _onMentionsHoverOrClick true true (mkDomEvent "EM" "@carol" "mouseover") [alice; bob] = [].
Proof.
  split; [|split].
  - destruct (onMentions_user_not_found hover_carol [alice; bob]) as (Hcalled & _).
    apply Hcalled; [reflexivity | reflexivity | reflexivity |].
    intros u Hu. apply list_elem_of_In in Hu. simpl in Hu.
    destruct Hu as [<-|[<-|[]]]; reflexivity.
  - destruct (onMentions_user_not_found hover_carol [alice; bob]) as (_ & Hmissing & _).
    apply Hmissing. reflexivity.
  - destruct (onMentions_user_not_found (mkDomEvent "EM" "@carol" "mouseover") [alice; bob])
      as (_ & _ & Hother).
    apply Hother. left. discriminate.
Defined.

(** C9 as stated fails: hovering the mention of a user the message does
    not list calls [onMentionsHover]. *)
Lemma onMentions_called_when_not_found :
  ~ silent_when_not_found true true hover_carol [alice; bob].
Proof. intros H. specialize (H eq_refl). vm_compute in H. discriminate. Qed.

(** ** Last received message (C10) *)

Lemma getLastReceived_loop_take x (rest : list Entry) n :
  (n <= length rest)%nat ->
  getLastReceived_loop (x :: rest) n
  = match List.find is_received (rev (take n rest)) with
    | Some y => Some (entry_id y)
    | None => None
    end.
Proof.
  induction n as [|n IH]; intros Hn; [done|].
  destruct (lookup_lt_is_Some_2 rest n) as [y Hy]; [lia|].
  cbn [getLastReceived_loop]. change ((x :: rest) !! S n) with (rest !! n). rewrite Hy.
  rewrite (take_S_r _ _ _ Hy), rev_app_distr. simpl.
  destruct (is_received y); [done|]. apply IH. lia.
Qed.

(** C10: [getLastReceived] starts at index [length], where there is no
    message, and stops before index 0: it returns the id of the last
    message at positions 1 to [length - 1] whose status is [received],
    and [null] when there is none; so it returns [null] when the only
    received message is the first one. *)
Theorem getLastReceived_scan (messages : list Entry) :
  getLastReceived messages
  = match List.find is_received (rev (tail messages)) with
    | Some y => Some (entry_id y)
    | None => None
    end
  /\ (forall x rest, messages = x :: rest ->
        (forall y, y ∈ rest -> is_received y = false) ->
        getLastReceived messages = None).
Proof.
  assert (Hscan : getLastReceived messages
                  = match List.find is_received (rev (tail messages)) with
                    | Some y => Some (entry_id y)
                    | None => None
                    end).
  { unfold getLastReceived. destruct messages as [|x rest]; [done|].
    cbn [length getLastReceived_loop tail].
    change ((x :: rest) !! S (length rest)) with (rest !! length rest).
    rewrite (lookup_ge_None_2 rest (length rest)) by lia.
    rewrite getLastReceived_loop_take by lia. by rewrite firstn_all. }
  split; [done|].
  intros x rest -> Hrest. rewrite Hscan. simpl.
  replace (List.find is_received (rev rest)) with (@None Entry); [done|].
  symmetry. apply find_none_iff. intros y Hy. apply Hrest.
  apply list_elem_of_In. apply list_elem_of_In, List.in_rev in Hy. done.
Qed.

(** Only the first message is received. *)
Lemma getLastReceived_scan_witness :
  getLastReceived [EMsg received_message; EMsg m2] = None.
Proof.
  destruct (getLastReceived_scan [EMsg received_message; EMsg m2]) as [_ Hfirst].
  apply (Hfirst (EMsg received_message) [EMsg m2]); [reflexivity|].
  intros y Hy. apply list_elem_of_In in Hy. simpl in Hy.
  destruct Hy as [<-|[]]. reflexivity.
Defined.

(** A received message behind the first one is found. *)
Example getLastReceived_second :
  getLastReceived [EMsg m2; EMsg received_message; EDate 5] = Some (Some "r").
Proof. vm_compute. reflexivity. Qed.

(** * Further properties of the code *)

(** ** The sort of render *)

Lemma SortCompare_messages a b :
  SortCompare (EMsg a) (EMsg b) = (msg_created_at a - msg_created_at b)%Z.
Proof. reflexivity. Qed.

Lemma sort_insert_sorted x (l : list Entry) :
  is_message x = true -> Forall (fun y => is_message y = true) l ->
  sorted_by_timestamp l -> sorted_by_timestamp (sort_insert x l).
Proof.
  unfold sorted_by_timestamp. intros Hx Hl Hs.
  induction l as [|y l IH]; simpl.
  - constructor; constructor.
  - apply Forall_cons in Hl as [Hy Hl]. simpl in Hs.
    apply StronglySorted_inv in Hs as [Hs Hle].
    destruct x as [a| |]; try done. destruct y as [b| |]; try done.
    rewrite SortCompare_messages. simpl in *.
    destruct (Z.leb_spec (msg_created_at a - msg_created_at b) 0) as [Hab|Hab]; simpl.
    + constructor; [by constructor|].
      constructor; [lia|]. eapply List.Forall_impl; [|exact Hle]. simpl. intros; lia.
    + constructor; [by apply IH|].
      apply (Permutation_Forall (x := map effective_timestamp (EMsg a :: l))).
      * apply Permutation_map. symmetry. apply sort_insert_perm.
      * simpl. constructor; [lia|done].
Qed.

(** X1: the sort keeps the entries of the timeline, whatever it holds; a
    timeline of messages only comes out in ascending order of
    [created_at]. *)
Theorem array_sort_messages (l : list Entry) :
  array_sort l ≡ₚ l
  /\ (Forall (fun x => is_message x = true) l -> sorted_by_timestamp (array_sort l)).
Proof.
  split; [apply array_sort_perm|].
  induction l as [|x l IH]; intros Hl; simpl.
  - constructor.
  - apply Forall_cons in Hl as [Hx Hl].
    apply sort_insert_sorted; [done| |by apply IH].
    apply (Permutation_Forall (x := l)); [symmetry; apply array_sort_perm|done].
Qed.

(** Three messages out of order. *)
Lemma array_sort_messages_witness :
  sorted_by_timestamp (array_sort [EMsg m3; EMsg m1; EMsg m2]).
Proof.
  destruct (array_sort_messages [EMsg m3; EMsg m1; EMsg m2]) as [_ Hsorted].
  apply Hsorted. repeat constructor.
Defined.

(** A timeline no entry of which the comparator puts after the next one
    is left as it is. *)
Lemma array_sort_ordered (l : list Entry) :
  Sorted not_after l -> array_sort l = l.
Proof.
  induction 1 as [|x l Hs IH Hhd]; simpl; [done|].
  rewrite IH. destruct Hhd as [|y l' Hxy]; simpl; [done|].
  unfold not_after in Hxy. apply Z.leb_le in Hxy. by rewrite Hxy.
Qed.

Lemma not_after_marker x y :
  is_message x = false \/ is_message y = false -> not_after x y.
Proof.
  intros H. unfold not_after. rewrite SortCompare_marker; [done|].
  destruct H as [-> | ->]; [done|apply andb_false_r].
Qed.

Lemma Sorted_app_intro {A} (R : A -> A -> Prop) (a b : list A) :
  Sorted R a -> Sorted R b ->
  (forall x y, last a = Some x -> head b = Some y -> R x y) ->
  Sorted R (a ++ b).
Proof.
  intros Ha Hb Hjoin. induction a as [|x a IH]; simpl; [done|].
  apply Sorted_inv in Ha as [Ha Hhd].
  constructor.
  - apply IH; [done|]. intros u v Hu Hv. apply Hjoin; [|done].
    by rewrite last_cons, Hu.
  - destruct a as [|x' a]; simpl.
    + destruct b as [|y b]; constructor. by apply Hjoin.
    + constructor. by apply HdRel_inv in Hhd.
Qed.

Lemma Sorted_no_messages (l : list Entry) :
  Forall (fun x => is_message x = false) l -> Sorted not_after l.
Proof.
  induction 1 as [|x l Hx Hl IH]; constructor; [done|].
  destruct l; constructor. apply not_after_marker. by left.
Qed.

Lemma block_of_sorted m b : block_of m b -> Sorted not_after b.
Proof.
  intros (pre & post & -> & Hpre & Hpost).
  apply Sorted_app_intro.
  - by apply Sorted_no_messages.
  - constructor; [by apply Sorted_no_messages|].
    destruct Hpost; constructor. apply not_after_marker. by right.
  - intros x y Hx _. apply not_after_marker. left.
    apply last_Some in Hx as [l' ->].
    by apply Forall_app in Hpre as [_ [? _]%Forall_cons].
Qed.

(** An iteration of [insertDates] pushes such a block. *)
Lemma pushes_block_of LocalTZA eventHistory messages i m :
  block_of m (insertDates_pushes LocalTZA eventHistory messages i m).
Proof.
  assert (Hevents : forall es, Forall (fun x => is_message x = false) (map EEvent es)).
  { induction es; constructor; done. }
  unfold insertDates_pushes, block_of.
  destruct (passes_through m); [by exists [], []|].
  destruct (pushes_date _ _ _ _).
  - exists [EDate (msg_created_at m)], (map EEvent (eventsNextToMessage eventHistory m)).
    split; [done|]. split; [by repeat constructor|apply Hevents].
  - exists [], (map EEvent (eventsNextToMessage eventHistory m)).
    split; [done|]. split; [constructor|apply Hevents].
Qed.

Lemma blocks_sorted (f : nat -> Message -> list Entry) (l : list Message) :
  (forall i m, block_of m (f i m)) ->
  Sorted Z.le (map msg_created_at l) ->
  Sorted not_after (concat (imap f l))
  /\ (forall y, head (concat (imap f l)) = Some y ->
        is_message y = false \/ exists m, head l = Some m /\ y = EMsg m).
Proof.
  revert f. induction l as [|m l IH]; intros f Hf Hl; simpl.
  - split; [constructor|done].
  - apply Sorted_inv in Hl as [Hl Hhd].
    destruct (IH (f ∘ S)) as [IHs IHh]; [intros i x; apply Hf|done|].
    pose proof (Hf 0%nat m) as Hshape.
    pose proof (block_of_sorted _ _ Hshape) as Hblock.
    destruct Hshape as (pre & post & Hb & Hpre & Hpost).
    split.
    + apply Sorted_app_intro; [done|done|].
      intros x y Hx Hy. rewrite Hb in Hx.
      destruct (IHh y Hy) as [Hy'|(m' & Hm' & ->)]; [apply not_after_marker; by right|].
      destruct post as [|p post _] using rev_ind.
      * rewrite last_snoc in Hx. injection Hx as <-.
        unfold not_after. rewrite SortCompare_messages.
        destruct l as [|m'' l]; [done|]. injection Hm' as ->.
        apply HdRel_inv in Hhd. lia.
      * rewrite app_comm_cons, app_assoc, last_snoc in Hx. injection Hx as <-.
        apply not_after_marker. left.
        by apply Forall_app in Hpost as [_ [? _]%Forall_cons].
    + intros y Hy. rewrite Hb in Hy.
      destruct pre as [|p pre]; simpl in Hy; injection Hy as <-.
      * right. by exists m.
      * left. by apply Forall_cons in Hpre as [? _].
Qed.

(** X2: when the messages come in ascending order of [created_at], the sort
    of [render] changes nothing: the rendered timeline is the one
    [insertDates] built. *)
Theorem render_keeps_ordered_timeline (LocalTZA : Z -> Z) (messages : list Message)
    (eventHistory : gmap string (list Event)) (read : list ReadState) (noGroupByUser : bool) :
  Sorted Z.le (map msg_created_at messages) ->
  allMessages (render LocalTZA messages eventHistory read noGroupByUser)
  = insertDates LocalTZA eventHistory messages.
Proof.
  intros Hsorted. unfold render. cbn [allMessages].
  apply array_sort_ordered. rewrite insertDates_blocks.
  apply blocks_sorted; [|done]. intros i m. apply pushes_block_of.
Qed.

(** The scenario of the design document, with an event after the first
    message. *)
Lemma render_keeps_ordered_timeline_witness :
  allMessages (render utc [m1; m2; m3] {[ "1" := [member_added (monday + 10)] ]} [] false)
  = insertDates utc {[ "1" := [member_added (monday + 10)] ]} [m1; m2; m3].
Proof.
  apply render_keeps_ordered_timeline.
  repeat constructor; vm_compute; discriminate.
Defined.

(** ** More on insertDates *)

Section InsertDatesMore.

Variable LocalTZA : Z -> Z.
Variable eventHistory : gmap string (list Event).

Abbreviation pushes := (insertDates_pushes LocalTZA eventHistory).

(** An iteration looks at the message just before its own only. *)
Lemma pushes_app_l (l1 l2 : list Message) i m :
  (i < length l1)%nat -> pushes (l1 ++ l2) i m = pushes l1 i m.
Proof.
  intros Hi. unfold insertDates_pushes, pushes_date.
  destruct i as [|i]; [done|]. simpl. rewrite Nat.sub_0_r.
  by rewrite lookup_app_l by lia.
Qed.

(** X3: messages appended to the input only append to the timeline: the
    timeline of the shorter input is a prefix of the new one, and what
    follows it holds the appended messages, in order. *)
Theorem insertDates_app (l1 l2 : list Message) :
  exists rest,
    insertDates LocalTZA eventHistory (l1 ++ l2)
    = insertDates LocalTZA eventHistory l1 ++ rest
    /\ List.filter is_message rest = map EMsg l2.
Proof.
  exists (concat (imap (fun j => pushes (l1 ++ l2) (length l1 + j)) l2)).
  rewrite !insertDates_blocks, imap_app, concat_app. split.
  - f_equal. f_equal. apply imap_ext. intros i m Hi.
    apply pushes_app_l. by apply lookup_lt_Some in Hi.
  - apply filter_is_message_blocks. intros i m. apply pushes_one_message.
Qed.

Lemma events_lookup_event (es : list Event) k e :
  map EEvent es !! k = Some (EEvent e) -> e ∈ es.
Proof.
  revert k. induction es as [|e' es IH]; intros [|k]; simpl; try done.
  - intros [= ->]. by left.
  - intros H. right. by apply (IH k).
Qed.

(** X4: an event entry of the timeline is an event of the bucket of a
    message of the input that is no read marker and not soft-deleted:
    the bucket of its id, or the bucket ["first"] when it has none.  So
    without event history the timeline has no event entries. *)
Theorem insertDates_events_from_history (messages : list Message) (e : Event) :
  EEvent e ∈ insertDates LocalTZA eventHistory messages ->
  exists m es, m ∈ messages /\ passes_through m = false
    /\ eventHistory !! or_else (msg_id m) "first" = Some es /\ e ∈ es.
Proof.
  rewrite insertDates_blocks. intros Hin.
  apply list_elem_of_lookup in Hin as [j Hj].
  apply blocks_lookup in Hj as (i & m & k & Hi & Hk & _).
  assert (Hm : m ∈ messages) by (apply list_elem_of_lookup; eauto).
  unfold insertDates_pushes in Hk.
  destruct (passes_through m) eqn:Hreg.
  { destruct k; simpl in Hk; [done|]. by rewrite lookup_nil in Hk. }
  assert (He : e ∈ eventsNextToMessage eventHistory m).
  { destruct (pushes_date _ _ _ _); simpl in Hk.
    - destruct k as [|[|k]]; simpl in Hk; try done. by apply events_lookup_event in Hk.
    - destruct k as [|k]; simpl in Hk; [done|]. by apply events_lookup_event in Hk. }
  unfold eventsNextToMessage in He.
  destruct (eventHistory !! or_else (msg_id m) "first") as [es|] eqn:Hes.
  - exists m, es. split; [done|]. split; [done|]. split; [done|].
    destruct (0 <? length es)%nat; [done|]. by apply elem_of_nil in He.
  - by apply elem_of_nil in He.
Qed.

Lemma blocks_singletons (f : nat -> Message -> list Entry) (l : list Message) :
  (forall i m, m ∈ l -> f i m = [EMsg m]) -> concat (imap f l) = map EMsg l.
Proof.
  revert f. induction l as [|m l IH]; intros f Hf; simpl; [done|].
  rewrite Hf by (by left). simpl. f_equal. apply IH.
  intros i x Hx. apply Hf. by right.
Qed.

(** X5: an input of read markers and soft-deleted messages only is handed
    on as it is, without date markers and without events. *)
Theorem insertDates_pass_through (messages : list Message) :
  Forall (fun m => passes_through m = true) messages ->
  insertDates LocalTZA eventHistory messages = map EMsg messages.
Proof.
  intros Hall. rewrite insertDates_blocks. apply blocks_singletons.
  intros i m Hm. unfold insertDates_pushes.
  by rewrite (proj1 (Forall_forall _ _) Hall m Hm).
Qed.

End InsertDatesMore.

(** An event of the bucket ["first"] behind a message without id. *)
Lemma insertDates_events_from_history_witness :
  exists m es, m ∈ [pending] /\ passes_through m = false
    /\ first_bucket !! or_else (msg_id m) "first" = Some es /\ member_added 50 ∈ es.
Proof.
  apply (insertDates_events_from_history utc first_bucket [pending] (member_added 50)).
  apply list_elem_of_In. vm_compute. right. right. left. reflexivity.
Defined.

(** A soft-deleted message alone. *)
Lemma insertDates_pass_through_witness :
  insertDates utc first_bucket [d0] = map EMsg [d0].
Proof.
  apply insertDates_pass_through. repeat constructor.
Defined.

(** ** More on getGroupStyles *)

(** Every array an iteration assigns holds one style. *)
Lemma groupStyles_of_group_styles noGroupByUser message isTopMessage isBottomMessage :
  groupStyles_of noGroupByUser message isTopMessage isBottomMessage ∈ group_styles.
Proof.
  unfold groupStyles_of, group_styles.
  destruct noGroupByUser, isTopMessage, isBottomMessage, (deleted_or_error message),
    (length (msg_attachments message) =? 0)%nat; simpl;
    repeat (first [apply list_elem_of_here | apply list_elem_of_further]).
Qed.

Section GroupStylesMore.

Variable noGroupByUser : bool.
Variable m : list Entry.

Lemma getGroupStyles_assigns_styled i k gs :
  getGroupStyles_assigns noGroupByUser m i = Some (k, gs) ->
  exists x, m !! i = Some x /\ styled x = true /\ k = entry_key x /\ gs ∈ group_styles.
Proof.
  unfold getGroupStyles_assigns, styled, is_marker_type.
  destruct (m !! i) as [[x| |]|]; try done. simpl.
  destruct (String.eqb (msg_type x) "message.date") eqn:Hdate; [done|].
  destruct (String.eqb (msg_type x) "channel.event") eqn:Hevent; [done|].
  intros [= <- <-]. exists (EMsg x).
  split; [done|]. split; [by rewrite Hdate, Hevent|]. split; [done|].
  apply groupStyles_of_group_styles.
Qed.

Lemma styled_assigns i x :
  m !! i = Some x -> styled x = true ->
  exists gs, getGroupStyles_assigns noGroupByUser m i = Some (entry_key x, gs).
Proof.
  destruct x as [x| |]; try done. simpl. intros Hi Hty.
  apply negb_true_iff in Hty.
  rewrite (getGroupStyles_assigns_message _ _ _ _ Hi Hty). eauto.
Qed.

(** A key once assigned stays in the map. *)
Lemma getGroupStyles_assigned i k gs :
  getGroupStyles_assigns noGroupByUser m i = Some (k, gs) ->
  is_Some (getGroupStyles noGroupByUser m !! k).
Proof.
  intros Hi. unfold getGroupStyles.
  assert (Hlen : (i < length m)%nat).
  { apply getGroupStyles_assigns_inv in Hi as (x & Hx & _). by apply lookup_lt_Some in Hx. }
  revert Hlen. generalize (length m) as n.
  induction n as [|n IH]; intros Hlen; [lia|].
  rewrite seq_S, fold_left_app. simpl.
  destruct (getGroupStyles_assigns noGroupByUser m n) as [[k' gs']|] eqn:Hn.
  - destruct (decide (k' = k)) as [->|Hne].
    + rewrite lookup_insert_eq. eauto.
    + rewrite lookup_insert_ne by done. apply IH.
      destruct (decide (i = n)) as [->|]; [congruence|lia].
  - apply IH. destruct (decide (i = n)) as [->|]; [congruence|lia].
Qed.


End GroupStylesMore.


(** X7: a message whose previous entry ends a group (there is none, or
    it is a date marker, an event, a message of another user, ...) is
    assigned [top] or [single]; one whose next entry ends a group is
    assigned [bottom] or [single]; one with both is assigned [single];
    and a soft-deleted message or an error message is assigned [top] or
    [single], never [middle] or [bottom]. *)
Theorem getGroupStyles_at_group_ends (noGroupByUser : bool) (m : list Entry)
    (i : nat) (x : Message) :
  m !! i = Some (EMsg x) -> is_marker_type x = false ->
  exists gs,
    getGroupStyles_assigns noGroupByUser m i = Some (entry_key (EMsg x), gs)
    /\ (ends_group (user_id (msg_user x)) (if (i =? 0)%nat then None else m !! (i - 1)%nat) = true ->
        gs = ["top"] \/ gs = ["single"])
    /\ (ends_group (user_id (msg_user x)) (m !! (i + 1)%nat) = true ->
        gs = ["bottom"] \/ gs = ["single"])
    /\ (ends_group (user_id (msg_user x)) (if (i =? 0)%nat then None else m !! (i - 1)%nat) = true ->
        ends_group (user_id (msg_user x)) (m !! (i + 1)%nat) = true ->
        gs = ["single"])
    /\ (deleted_or_error x = true -> gs = ["top"] \/ gs = ["single"]).
Proof.
  intros Hi Hty. eexists. split; [by apply getGroupStyles_assigns_message|].
  unfold groupStyles_of.
  destruct noGroupByUser,
    (ends_group (user_id (msg_user x)) (if (i =? 0)%nat then None else m !! (i - 1)%nat)),
    (ends_group (user_id (msg_user x)) (m !! (i + 1)%nat)),
    (deleted_or_error x), (length (msg_attachments x) =? 0)%nat; simpl;
    repeat split; intros; try done; auto.
Qed.

(** The first message of a group of three stands behind a date marker. *)
Lemma getGroupStyles_at_group_ends_witness :
  exists gs,
    getGroupStyles_assigns false group_of_three 1
    = Some (entry_key (EMsg (plain_message (Some "x") 1 alice)), gs)
    /\ (gs = ["top"] \/ gs = ["single"]).
Proof.
  destruct (getGroupStyles_at_group_ends false group_of_three 1
              (plain_message (Some "x") 1 alice) eq_refl eq_refl)
    as (gs & Hgs & Htop & _).
  exists gs. split; [exact Hgs|]. apply Htop. reflexivity.
Defined.

(** ** More on getReadStates *)

Section ReadStatesMore.

Variable messages : list Entry.

(** Who is filed under a key has a record that points there. *)
Lemma readers_of_record read k u :
  u ∈ readers_of messages read k ->
  exists r, r ∈ read /\ read_user r = u /\ read_target messages r = Some k.
Proof.
  induction read as [|r read IH]; [by intros ?%elem_of_nil|].
  destruct (last_read r) as [t|] eqn:Ht.
  - rewrite (readers_of_next _ _ _ _ _ Ht).
    assert (Htarget : read_target messages r = userLastReadMsgId messages t).
    { unfold read_target. rewrite Ht. symmetry. apply userLastReadMsgId_last. }
    intros [Hu|Hu]%elem_of_app.
    + destruct (decide (userLastReadMsgId messages t = Some k)) as [Hk|Hk].
      * rewrite bool_decide_eq_true_2 in Hu by done.
        apply list_elem_of_singleton in Hu as ->.
        exists r. split; [by left|]. split; [done|congruence].
      * rewrite bool_decide_eq_false_2 in Hu by done. by apply elem_of_nil in Hu.
    + destruct (IH Hu) as (r' & Hr' & Hur & Htr). exists r'. split; [by right|done].
  - rewrite (readers_of_stop _ _ _ _ Ht). by intros ?%elem_of_nil.
Qed.

Lemma readers_of_NoDup read k :
  NoDup (map read_user read) -> NoDup (readers_of messages read k).
Proof.
  induction read as [|r read IH]; simpl; intros Hnd.
  - unfold readers_of. simpl. constructor.
  - apply NoDup_cons in Hnd as [Hr Hnd].
    destruct (last_read r) as [t|] eqn:Ht.
    + rewrite (readers_of_next _ _ _ _ _ Ht).
      destruct (bool_decide _); simpl; [|by apply IH].
      apply NoDup_cons. split; [|by apply IH].
      intros Hin. apply readers_of_record in Hin as (r' & Hr' & Hur & _).
      apply Hr. rewrite <- Hur. apply list_elem_of_In, List.in_map, list_elem_of_In, Hr'.
    + rewrite (readers_of_stop _ _ _ _ Ht). constructor.
Qed.

Lemma NoDup_map_inj {A B} (f : A -> B) (l : list A) x y :
  NoDup (map f l) -> x ∈ l -> y ∈ l -> f x = f y -> x = y.
Proof.
  induction l as [|z l IH]; simpl; intros Hnd Hx Hy Hf; [by apply elem_of_nil in Hx|].
  apply NoDup_cons in Hnd as [Hz Hnd].
  assert (Hin : forall w, w ∈ l -> f w ∈ map f l).
  { intros w Hw. apply list_elem_of_In, List.in_map, list_elem_of_In, Hw. }
  apply elem_of_cons in Hx as [->|Hx]; apply elem_of_cons in Hy as [->|Hy]; try done.
  - destruct Hz. rewrite Hf. by apply Hin.
  - destruct Hz. rewrite <- Hf. by apply Hin.
  - by apply IH.
Qed.

(** X8: when the records are of different users, a user is read-by of at
    most one message: no list of the read index names a user twice, and
    no user is in the lists of two keys. *)
Theorem getReadStates_one_key_per_user (read : list ReadState) :
  NoDup (map read_user read) ->
  (forall k l, getReadStates messages read !! k = Some l -> NoDup l)
  /\ (forall k k' l l' u,
        getReadStates messages read !! k = Some l ->
        getReadStates messages read !! k' = Some l' ->
        u ∈ l -> u ∈ l' -> k = k').
Proof.
  intros Hnd.
  assert (Hlookup : forall k l, getReadStates messages read !! k = Some l ->
            l = readers_of messages read k).
  { intros k l. rewrite getReadStates_lookup. destruct (bool_decide _); congruence. }
  split.
  - intros k l Hk. rewrite (Hlookup _ _ Hk). by apply readers_of_NoDup.
  - intros k k' l l' u Hk Hk' Hu Hu'.
    rewrite (Hlookup _ _ Hk) in Hu. rewrite (Hlookup _ _ Hk') in Hu'.
    apply readers_of_record in Hu as (r & Hr & Hur & Htr).
    apply readers_of_record in Hu' as (r' & Hr' & Hur' & Htr').
    assert (r = r') by (apply (NoDup_map_inj read_user read); congruence).
    congruence.
Qed.

End ReadStatesMore.

(** Two readers past the same message. *)
Lemma getReadStates_one_key_per_user_witness :
  NoDup [alice; bob]
  /\ (forall k' l', getReadStates [EMsg sent; EMsg m1] [mkReadState (Some 30%Z) alice; bob_read] !! k' = Some l' ->
        bob ∈ l' -> "a" = k').
Proof.
  destruct (getReadStates_one_key_per_user [EMsg sent; EMsg m1]
              [mkReadState (Some 30%Z) alice; bob_read]) as [Hnodup Hone].
  - apply (bool_decide_unpack _). vm_compute. exact I.
  - split.
    + apply (Hnodup "a"). vm_compute. reflexivity.
    + intros k' l' Hk' Hbob.
      apply (Hone "a" k' [alice; bob] l' bob); [vm_compute; reflexivity|exact Hk'| |exact Hbob].
      apply list_elem_of_In. right. left. reflexivity.
Defined.

(** ** The notification over the life of the component *)

Lemma step_notification_while_scrolled_up (ESC : Z) (c : Component) (a : Action) :
  notification_while_scrolled_up c -> notification_while_scrolled_up (step ESC c a).
Proof.
  unfold notification_while_scrolled_up.
  destruct c as [s offset]. simpl. intros Hinv.
  destruct a as [client messages prevMessages scrollHeight snapshot|o| |event_online|keyCode|message|];
    simpl.
  - unfold componentDidUpdate, handle_new_messages.
    destruct (last prevMessages) as [p|], (last messages) as [c|]; simpl; try done.
    revert Hinv.
    destruct (bool_decide (msg_id c = msg_id p)), (String.eqb _ _),
      (userScrolledUp offset), (newMessagesNotification s) eqn:Hflag; simpl;
      rewrite ?Hflag; auto.
  - unfold listenToScroll. simpl.
    destruct (newMessagesNotification s) eqn:Hflag, (310 <? o)%Z eqn:Hup; simpl; auto.
    by rewrite Hflag.
  - done.
  - unfold connectionChanged. by destruct (negb _).
  - unfold keypress. by destruct (_ && _).
  - done.
  - done.
Qed.

(** X10: whatever happens to the component after it is mounted (updates,
    scrolling, clicks on the notification, connection changes, keys,
    editing), the notification of new messages is pending only while the
    scroll offset last reported is above 310. *)
Theorem run_notification_while_scrolled_up (ESC : Z) (actions : list Action) :
  notification_while_scrolled_up (run ESC actions).
Proof.
  unfold run.
  assert (Hinit : notification_while_scrolled_up initial_component) by done.
  revert Hinit. generalize initial_component as c.
  induction actions as [|a actions IH]; intros c Hc; simpl; [done|].
  apply IH. by apply step_notification_while_scrolled_up.
Qed.

(** The notification raised while the list is scrolled up. *)
Lemma run_notification_while_scrolled_up_witness :
  newMessagesNotification (component_state (run 27 scrolled_up_then_message)) = true
  /\ userScrolledUp (component_scrollOffset (run 27 scrolled_up_then_message)) = true.
Proof.
  split; [reflexivity|].
  apply (run_notification_while_scrolled_up 27 scrolled_up_then_message). reflexivity.
Defined.

(** ** The scroll position across an update *)

Section ScrollAnchor.

Variable deepequal : gmap string (list Event) -> gmap string (list Event) -> bool.
Variable client : Client.
Variables messages prevMessages : list Message.
Variables eventHistory prevEventHistory : gmap string (list Event).
Variable scrollOffset : option Z.

Lemma handle_new_messages_no_restore (s : State) :
  List.filter is_restore (fst (handle_new_messages client messages prevMessages scrollOffset s)) = [].
Proof.
  unfold handle_new_messages.
  destruct (last prevMessages), (last messages); simpl; try done.
  by destruct (if _ : bool then true else _).
Qed.

(** X11: the snapshot taken before an update and the restoring after it: in
    a thread list, and when no message was added and the event history
    is as before, the update does not touch the scroll position beyond
    scrolling to the bottom; otherwise it first sets [scrollTop] so that
    the distance to the end of the list, [scrollHeight - scrollTop], is
    what it was before the update, and does so once more after 100 ms
    exactly when the last message is not the local user's. *)
Theorem componentDidUpdate_restores_distance (threadList : bool) (s : State)
    (scrollHeight scrollTop newScrollHeight : Z) :
  let snapshot :=
    getSnapshotBeforeUpdate deepequal threadList messages prevMessages
      eventHistory prevEventHistory scrollHeight scrollTop in
  let effects :=
    fst (componentDidUpdate client messages prevMessages scrollOffset newScrollHeight s snapshot) in
  (threadList = true
   \/ ((length messages <= length prevMessages)%nat
       /\ deepequal eventHistory prevEventHistory = true) ->
   List.filter is_restore effects = [])
  /\ (threadList = false ->
      (length prevMessages < length messages)%nat
      \/ deepequal eventHistory prevEventHistory = false ->
      exists target rest,
        effects = ScrollToTarget target :: rest
        /\ (newScrollHeight - target = scrollHeight - scrollTop)%Z
        /\ List.filter is_restore rest
           = match last messages with
             | Some lastMessage =>
                 if String.eqb (user_id (msg_user lastMessage)) (user_id (client_user client))
                 then [] else [ScrollToTargetAfter 100 (scrollHeight - scrollTop)]
             | None => []
             end).
Proof.
  intros snapshot effects. subst snapshot effects.
  unfold componentDidUpdate, getSnapshotBeforeUpdate.
  destruct (handle_new_messages client messages prevMessages scrollOffset s) as [effects s'] eqn:Hh.
  pose proof (handle_new_messages_no_restore s) as Hno. rewrite Hh in Hno. simpl in Hno.
  split.
  - intros [->|[Hlen Heq]]; [done|].
    destruct threadList; [done|]. rewrite Heq.
    apply Nat.ltb_ge in Hlen. by rewrite Hlen.
  - intros -> Hgrow.
    assert (Htaken : (length prevMessages <? length messages)%nat
                     || negb (deepequal eventHistory prevEventHistory) = true).
    { destruct Hgrow as [Hlt|Hne].
      - apply Nat.ltb_lt in Hlt. by rewrite Hlt.
      - rewrite Hne. apply orb_true_r. }
    rewrite Htaken. simpl.
    eexists _, _. split; [reflexivity|]. split; [lia|].
    rewrite List.filter_app, Hno, app_nil_r.
    destruct (last messages) as [lastMessage|]; [|done].
    by destruct (String.eqb _ _).
Qed.

End ScrollAnchor.

(** A message of another user arrives while the list is scrolled up, in
    a channel and in a thread list. *)
Lemma componentDidUpdate_restores_distance_witness :
  (exists target rest,
     fst (componentDidUpdate me [from_alice; from_bob] [from_alice] (Some 500%Z) 1200 quiet
            (getSnapshotBeforeUpdate same_history false [from_alice; from_bob] [from_alice]
               ∅ ∅ 1000 400))
     = ScrollToTarget target :: rest
     /\ (1200 - target = 1000 - 400)%Z
     /\ List.filter is_restore rest = [ScrollToTargetAfter 100 (1000 - 400)])
  /\ List.filter is_restore
       (fst (componentDidUpdate me [from_alice; from_bob] [from_alice] (Some 500%Z) 1200 quiet
               (getSnapshotBeforeUpdate same_history true [from_alice; from_bob] [from_alice]
                  ∅ ∅ 1000 400))) = [].
Proof.
  split.
  - destruct (componentDidUpdate_restores_distance same_history me [from_alice; from_bob]
                [from_alice] ∅ ∅ (Some 500%Z) false quiet 1000 400 1200) as [_ Hrestore].
    apply Hrestore; [reflexivity|]. left. simpl. lia.
  - destruct (componentDidUpdate_restores_distance same_history me [from_alice; from_bob]
                [from_alice] ∅ ∅ (Some 500%Z) true quiet 1000 400 1200) as [Hnone _].
    apply Hnone. left. reflexivity.
Defined.

(** ** More on the mention handler *)

(** X13: the handler calls [onMentionsHover] at most once and never calls
    [onMentionsClick], on a click either; it calls only when both
    callbacks are there and the target is a [strong] element whose text
    starts with an at sign, on a [mouseover] or a [click], and hands on
    the event and the first mentioned user whose name or id is the name
    in the text. *)
Theorem onMentions_calls (onMentionsHover onMentionsClick : bool)
    (e : DomEvent) (mentioned_users : list User) :
  let calls := _onMentionsHoverOrClick onMentionsHover onMentionsClick e mentioned_users in
  (length calls <= 1)%nat
  /\ (forall e' u, OnMentionsClick e' u ∉ calls)
  /\ (forall e' u, OnMentionsHover e' u ∈ calls ->
        e' = e /\ u = List.find (names_user (mention_name e)) mentioned_users
        /\ onMentionsHover = true /\ onMentionsClick = true
        /\ toLowerCase (target_tagName e) = "strong"
        /\ (dom_event_type e = "mouseover" \/ dom_event_type e = "click")).
Proof.
  intros calls. subst calls. unfold _onMentionsHoverOrClick, mention_name.
  destruct onMentionsHover, onMentionsClick; simpl;
    try (split; [lia|]; split; intros e' u Hin; by apply elem_of_nil in Hin).
  destruct (String.eqb_spec (toLowerCase (target_tagName e)) "strong") as [Htag|Htag]; simpl;
    [|split; [lia|]; split; intros e' u Hin; by apply elem_of_nil in Hin].
  destruct (starts_with_at _); simpl;
    [|split; [lia|]; split; intros e' u Hin; by apply elem_of_nil in Hin].
  destruct (String.eqb_spec (dom_event_type e) "mouseover") as [Hover|Hover];
    destruct (String.eqb_spec (dom_event_type e) "click") as [Hclick|Hclick]; simpl.
  - congruence.
  - split; [lia|]. split; intros e' u Hin; apply list_elem_of_singleton in Hin; [done|].
    injection Hin as -> ->. auto 10.
  - split; [lia|]. split; intros e' u Hin; apply list_elem_of_singleton in Hin; [done|].
    injection Hin as -> ->. auto 10.
  - split; [lia|]. split; intros e' u Hin; by apply elem_of_nil in Hin.
Qed.

(** A click on the mention of a listed user. *)
Lemma onMentions_calls_witness :
  OnMentionsHover (mkDomEvent "STRONG" "@bob" "click") (Some bob)
    ∈ _onMentionsHoverOrClick true true (mkDomEvent "STRONG" "@bob" "click") [alice; bob]
  /\ dom_event_type (mkDomEvent "STRONG" "@bob" "click") = "click".
Proof.
  assert (Hin : OnMentionsHover (mkDomEvent "STRONG" "@bob" "click") (Some bob)
                ∈ _onMentionsHoverOrClick true true (mkDomEvent "STRONG" "@bob" "click") [alice; bob]).
  { apply list_elem_of_In. vm_compute. left. reflexivity. }
  split; [exact Hin|].
  destruct (onMentions_calls true true (mkDomEvent "STRONG" "@bob" "click") [alice; bob])
    as (_ & _ & Hhover).
  destruct (Hhover _ _ Hin) as (_ & _ & _ & _ & _ & [Hover|Hclick]); [discriminate|exact Hclick].
Defined.

(** ** The elements of render *)

Section RenderLoop.

Variable threadList : bool.
Variable state_editing : string.
Variable messageGroupStyles : gmap string (list string).
Variable readData : gmap string (list User).
Variable lastReceivedId : option (option string).

Abbreviation entry_elements :=
  (render_entry threadList state_editing messageGroupStyles readData lastReceivedId).
Abbreviation loop :=
  (render_loop threadList state_editing messageGroupStyles readData lastReceivedId).

Lemma render_loop_None (l : list Entry) (elements : list Element) :
  loop l elements = None <-> exists x, x ∈ l /\ entry_elements x = None.
Proof.
  revert elements. induction l as [|x l IH]; intros elements; simpl.
  - split; [done|]. by intros (x & ?%elem_of_nil & _).
  - destruct (entry_elements x) as [pushed|] eqn:Hx.
    + rewrite IH. split.
      * intros (y & Hy & Hnone). exists y. split; [by right|done].
      * intros (y & [->|Hy]%elem_of_cons & Hnone); [congruence|eauto].
    + split; [|done]. intros _. exists x. split; [by left|done].
Qed.

Lemma render_loop_Some (l : list Entry) (elements els : list Element) :
  loop l elements = Some els ->
  forall e, e ∈ els <->
    e ∈ elements \/ exists x pushed, x ∈ l /\ entry_elements x = Some pushed /\ e ∈ pushed.
Proof.
  revert elements. induction l as [|x l IH]; intros elements; simpl.
  - intros [= <-] e. split; [by left|].
    intros [?|(x & pushed & ?%elem_of_nil & _)]; done.
  - destruct (entry_elements x) as [pushed|] eqn:Hx; [|done].
    intros Hloop e. rewrite (IH _ Hloop e), elem_of_app. split.
    + intros [[?|?]|(y & py & Hy & Hpy & He)]; [by left| |].
      * right. exists x, pushed. split; [by left|done].
      * right. exists y, py. split; [by right|done].
    + intros [?|(y & py & [->|Hy]%elem_of_cons & Hpy & He)]; [by left; left| |].
      * left. right. congruence.
      * right. eauto.
Qed.

Lemma render_entry_message_None (m : Message) :
  entry_elements (EMsg m) = None <-> breaks_render threadList m = true.
Proof.
  unfold render_entry, breaks_render.
  destruct (String.eqb_spec (msg_type m) "message.date") as [Hd|Hd].
  - rewrite Hd. simpl. by destruct threadList.
  - destruct (String.eqb_spec (msg_type m) "channel.event") as [He|He]; simpl.
    + by rewrite He.
    + destruct (String.eqb (msg_type m) "system"); simpl; [done|].
      by destruct (negb _).
Qed.

(** The entries the loop stumbles over. *)
Lemma render_entry_None (x : Entry) :
  entry_elements x = None <-> exists m, x = EMsg m /\ breaks_render threadList m = true.
Proof.
  destruct x as [m|d|e].
  - rewrite render_entry_message_None. split; [by exists m|].
    by intros (m' & [= <-] & ?).
  - simpl. destruct threadList; (split; [done|]); by intros (m' & ? & _).
  - simpl. split; [done|]. by intros (m' & ? & _).
Qed.

End RenderLoop.

(** The messages of the rendered timeline are those of the input. *)
Lemma render_timeline_messages LocalTZA (messages : list Message)
    (eventHistory : gmap string (list Event)) (m : Message) :
  EMsg m ∈ array_sort (insertDates LocalTZA eventHistory messages) <-> m ∈ messages.
Proof.
  rewrite (array_sort_perm (insertDates LocalTZA eventHistory messages)).
  assert (Hfilter : List.filter is_message (insertDates LocalTZA eventHistory messages)
                    = map EMsg messages).
  { rewrite insertDates_blocks. apply filter_is_message_blocks, pushes_one_message. }
  split.
  - intros Hin.
    assert (Hf : EMsg m ∈ List.filter is_message (insertDates LocalTZA eventHistory messages)).
    { apply list_elem_of_In, List.filter_In. split; [by apply list_elem_of_In|done]. }
    rewrite Hfilter in Hf. apply list_elem_of_In, List.in_map_iff in Hf as (m' & [= ->] & Hm).
    by apply list_elem_of_In.
  - intros Hm.
    assert (Hf : EMsg m ∈ List.filter is_message (insertDates LocalTZA eventHistory messages)).
    { rewrite Hfilter. apply list_elem_of_In, List.in_map, list_elem_of_In, Hm. }
    apply list_elem_of_In, List.filter_In in Hf as [Hf _]. by apply list_elem_of_In.
Qed.

Section RenderElementsFacts.

Variable LocalTZA : Z -> Z.
Variable threadList : bool.
Variable state_editing : string.
Variable messages : list Message.
Variable eventHistory : gmap string (list Event).
Variable read : list ReadState.
Variable noGroupByUser : bool.

Abbreviation rendered :=
  (render_elements LocalTZA threadList state_editing messages eventHistory read noGroupByUser).
Abbreviation model := (render LocalTZA messages eventHistory read noGroupByUser).

Lemma rendered_as_message_styled m :
  rendered_as_message m = true -> styled (EMsg m) = true.
Proof.
  unfold rendered_as_message, styled, is_marker_type.
  destruct (String.eqb (msg_type m) "message.date"); [done|].
  by destruct (String.eqb (msg_type m) "channel.event").
Qed.

(** X16: the date separators: none in a thread list; otherwise one for every
    date marker of the timeline, and none else. *)
Theorem render_date_separators (els : list Element) :
  rendered = Some els ->
  (threadList = true -> forall key d, DateSeparatorItem key d ∉ els)
  /\ (threadList = false ->
      forall d, (exists key, DateSeparatorItem key d ∈ els)
                <-> EDate d ∈ insertDates LocalTZA eventHistory messages).
Proof.
  unfold render_elements. intros Hels.
  pose proof (render_loop_Some _ _ _ _ _ _ _ _ Hels) as Hin.
  assert (Hsep : forall x pushed key d,
            render_entry threadList state_editing (messageGroupStyles model) (readData model)
                         (lastReceivedId model) x = Some pushed ->
            DateSeparatorItem key d ∈ pushed -> threadList = false /\ x = EDate d).
  { intros x pushed key d. unfold render_entry. destruct x as [m|d'|e].
    - destruct (String.eqb (msg_type m) "message.date").
      { destruct threadList; [|done]. intros [= <-]. by intros ?%elem_of_nil. }
      destruct (String.eqb (msg_type m) "channel.event" || String.eqb (msg_type m) "system").
      { destruct (String.eqb (msg_type m) "system"); [|done].
        intros [= <-]. intros Hd%list_elem_of_singleton. done. }
      destruct (negb _); intros [= <-]; [|by intros ?%elem_of_nil].
      intros Hd%list_elem_of_singleton. done.
    - destruct threadList; intros [= <-]; [by intros ?%elem_of_nil|].
      intros Hd%list_elem_of_singleton. injection Hd as _ ->. done.
    - intros [= <-]. intros Hd%list_elem_of_singleton. done. }
  split.
  - intros Hthread key d Hd.
    apply Hin in Hd as [?%elem_of_nil|(x & pushed & _ & Hpushed & Hd)]; [done|].
    destruct (Hsep _ _ _ _ Hpushed Hd) as [Hno _]. congruence.
  - intros Hthread d. split.
    + intros (key & Hd).
      apply Hin in Hd as [?%elem_of_nil|(x & pushed & Hx & Hpushed & Hd)]; [done|].
      destruct (Hsep _ _ _ _ Hpushed Hd) as [_ ->].
      cbn [allMessages render] in Hx.
      by rewrite (array_sort_perm (insertDates LocalTZA eventHistory messages)) in Hx.
    + intros Hd. exists (KeySeparator d). apply Hin. right.
      exists (EDate d), [DateSeparatorItem (KeySeparator d) d]. split; [|split].
      * cbn [allMessages render].
        by rewrite (array_sort_perm (insertDates LocalTZA eventHistory messages)).
      * simpl. by rewrite Hthread.
      * by apply list_elem_of_singleton.
Qed.

End RenderElementsFacts.

(** The separator of the Tuesday of the scenario. *)
Lemma render_date_separators_witness :
  exists key, DateSeparatorItem key tuesday ∈ default [] scenario_elements.
Proof.
  destruct (render_date_separators utc false "2" [m1; m2; m3] ∅ [bob_read] false
              (default [] scenario_elements)) as [_ Hsep].
  - vm_compute. reflexivity.
  - apply (Hsep eq_refl tuesday).
    apply list_elem_of_In. vm_compute. right. right. right. left. reflexivity.
Defined.

(** ** The last received message of a rendered timeline *)

Lemma getLastReceived_tail (messages : list Entry) :
  getLastReceived messages
  = match List.find is_received (rev (tail messages)) with
    | Some y => Some (entry_id y)
    | None => None
    end.
Proof.
  unfold getLastReceived. destruct messages as [|x rest]; [done|].
  cbn [length getLastReceived_loop tail].
  change ((x :: rest) !! S (length rest)) with (rest !! length rest).
  rewrite (lookup_ge_None_2 rest (length rest)) by lia.
  rewrite getLastReceived_loop_take by lia. by rewrite firstn_all.
Qed.

Lemma find_app_first {A} (p : A -> bool) (a b : list A) :
  List.find p (a ++ b)
  = match List.find p a with Some x => Some x | None => List.find p b end.
Proof. induction a as [|x a IH]; simpl; [done|]. by destruct (p x). Qed.

(** Only messages can be received. *)
Lemma find_received_messages (l : list Entry) :
  List.find is_received (rev l) = List.find is_received (rev (List.filter is_message l)).
Proof.
  induction l as [|x l IH]; simpl; [done|].
  rewrite find_app_first, IH.
  destruct x as [m| |]; simpl.
  - rewrite find_app_first. simpl. done.
  - destruct (List.find is_received (rev (List.filter is_message l))); reflexivity.
  - destruct (List.find is_received (rev (List.filter is_message l))); reflexivity.
Qed.

Lemma find_received_map (l : list Message) :
  List.find is_received (map EMsg l) = EMsg <$> List.find message_received l.
Proof.
  induction l as [|m l IH]; simpl; [done|].
  unfold is_received, message_received in *. simpl.
  by destruct (bool_decide (msg_status m = Some "received")).
Qed.

(** X17: when the messages come in ascending order of [created_at] and the
    first is neither a read marker nor soft-deleted, the date marker in
    front of it takes the position that [getLastReceived] does not look
    at: the [lastReceivedId] of [render] is the id of the last message
    of the whole input whose status is [received], the first one
    included, and [null] only when there is none. *)
Theorem render_lastReceivedId (LocalTZA : Z -> Z) (messages : list Message)
    (eventHistory : gmap string (list Event)) (read : list ReadState) (noGroupByUser : bool) :
  Sorted Z.le (map msg_created_at messages) ->
  (exists m0, head messages = Some m0 /\ passes_through m0 = false) ->
  lastReceivedId (render LocalTZA messages eventHistory read noGroupByUser)
  = match List.find message_received (rev messages) with
    | Some m => Some (msg_id m)
    | None => None
    end.
Proof.
  intros Hsorted (m0 & Hhead & Hreg).
  unfold render. cbn [lastReceivedId].
  assert (Hout : array_sort (insertDates LocalTZA eventHistory messages)
                 = insertDates LocalTZA eventHistory messages).
  { apply array_sort_ordered. rewrite insertDates_blocks.
    apply blocks_sorted; [|done]. intros i m. apply pushes_block_of. }
  rewrite Hout, getLastReceived_tail.
  assert (Hfilter : List.filter is_message (insertDates LocalTZA eventHistory messages)
                    = map EMsg messages).
  { rewrite insertDates_blocks. apply filter_is_message_blocks, pushes_one_message. }
  assert (Htail : List.filter is_message (tail (insertDates LocalTZA eventHistory messages))
                  = map EMsg messages).
  { rewrite <- Hfilter. rewrite insertDates_blocks.
    destruct messages as [|m messages']; [done|]. injection Hhead as ->.
    simpl. unfold insertDates_pushes at 1 3. rewrite Hreg. done. }
  rewrite find_received_messages, Htail, <- map_rev, find_received_map.
  by destruct (List.find message_received (rev messages)).
Qed.

(** Only the first message of the scenario is received. *)
Lemma render_lastReceivedId_witness :
  lastReceivedId (render utc [m1_received; m2; m3] ∅ [] false) = Some (Some "1").
Proof.
  apply (render_lastReceivedId utc [m1_received; m2; m3] ∅ [] false).
  - repeat constructor; vm_compute; discriminate.
  - exists m1_received. split; reflexivity.
Defined.

(** ** The other cases of componentDidUpdate *)

Section OtherUpdates.

Variable client : Client.
Variables messages prevMessages : list Message.
Variable scrollOffset : option Z.
Variable scrollHeight : Z.

(** X12: the cases of the last part of [componentDidUpdate] that remain, for
    a last message [p] before and [c] after the update.  When the id is
    the same, the component does not scroll to the bottom and the state
    stays.  When the id changed, [c] is another user's and the list is
    not scrolled up (the offset is at most 310, or none was reported
    yet), it scrolls to the bottom and the notification flag is false
    afterwards.  When the id changed, [c] is another user's, the list is
    scrolled up and a notification is pending already, it does not
    scroll and the state stays. *)
Theorem componentDidUpdate_other_cases (s : State) (snapshot : option Z) (p c : Message) :
  last prevMessages = Some p -> last messages = Some c ->
  let result := componentDidUpdate client messages prevMessages scrollOffset scrollHeight s snapshot in
  (msg_id c = msg_id p -> (ScrollToBottom ∉ fst result) /\ snd result = s)
  /\ (msg_id c <> msg_id p -> user_id (msg_user c) <> userID client ->
      userScrolledUp scrollOffset = false ->
      ScrollToBottom ∈ fst result /\ newMessagesNotification (snd result) = false)
  /\ (msg_id c <> msg_id p -> user_id (msg_user c) <> userID client ->
      userScrolledUp scrollOffset = true -> newMessagesNotification s = true ->
      (ScrollToBottom ∉ fst result) /\ snd result = s).
Proof.
  intros Hp Hc result. subst result.
  unfold componentDidUpdate, handle_new_messages. rewrite Hp, Hc. cbv beta iota zeta.
  split; [|split].
  - intros Hid. rewrite (bool_decide_eq_true_2 _ Hid). simpl.
    rewrite app_nil_r. split; [apply restore_scroll_no_bottom|done].
  - intros Hid Howner Hup. rewrite (bool_decide_eq_false_2 _ Hid).
    apply String.eqb_neq in Howner. rewrite Howner, Hup. simpl.
    split; [apply elem_of_app; right; by left|].
    by destruct (newMessagesNotification s) eqn:Hflag.
  - intros Hid Howner Hup Hflag. rewrite (bool_decide_eq_false_2 _ Hid).
    apply String.eqb_neq in Howner. rewrite Howner, Hup, Hflag. simpl.
    rewrite app_nil_r. split; [apply restore_scroll_no_bottom|done].
Qed.

End OtherUpdates.

(** Another user's message arrives while the list is at the bottom and
    a notification is pending. *)
Lemma componentDidUpdate_other_cases_witness :
  ScrollToBottom ∈ fst at_bottom_update
  /\ newMessagesNotification (snd at_bottom_update) = false.
Proof.
  destruct (componentDidUpdate_other_cases me [from_alice; from_bob] [from_alice] (Some 0%Z)
              1000 (mkState true "" true) None from_alice from_bob eq_refl eq_refl)
    as (_ & Harrives & _).
  apply Harrives; [discriminate | discriminate | reflexivity].
Defined.

(** ** Who the read index names *)

(** X9: whoever the read index names under a key has a read state whose
    [last_read] is strictly after the [updated_at] of a message of the
    timeline with that key as its id: no reader is filed under a date
    marker or an event, nor under a message updated since the reader's
    [last_read]. *)
Theorem getReadStates_sound (messages : list Entry) (read : list ReadState)
    (k : string) (l : list User) (u : User) :
  getReadStates messages read !! k = Some l -> u ∈ l ->
  exists r t m, r ∈ read /\ read_user r = u /\ last_read r = Some t
    /\ EMsg m ∈ messages /\ msg_id m = Some k /\ (msg_updated_at m < t)%Z.
Proof.
  rewrite getReadStates_lookup. destruct (bool_decide _); [|done].
  intros [= <-] Hu.
  apply readers_of_record in Hu as (r & Hr & Hur & Htarget).
  unfold read_target in Htarget.
  destruct (last_read r) as [t|] eqn:Ht; [|done].
  destruct (last_read_entry messages t) as [x|] eqn:Hx; [|done].
  pose proof (last_read_entry_elem _ _ _ Hx) as Hin.
  unfold last_read_entry in Hx. apply last_Some in Hx as [l' Hl'].
  assert (Hbefore : updated_before t x = true).
  { assert (Hf : In x (List.filter (updated_before t) messages)).
    { rewrite Hl'. apply List.in_or_app. right. by left. }
    by apply List.filter_In in Hf as [_ ?]. }
  destruct x as [m| |]; try done.
  exists r, t, m. unfold updated_before in Hbefore. simpl in *.
  apply Z.ltb_lt in Hbefore. done.
Qed.

(** The reader past the message with id ["a"]. *)
Lemma getReadStates_sound_witness :
  exists r t m, r ∈ [bob_read] /\ read_user r = bob /\ last_read r = Some t
    /\ EMsg m ∈ [EDate 10; EMsg sent] /\ msg_id m = Some "a" /\ (msg_updated_at m < t)%Z.
Proof.
  apply (getReadStates_sound [EDate 10; EMsg sent] [bob_read] "a" [bob] bob).
  - vm_compute. reflexivity.
  - apply list_elem_of_In. left. reflexivity.
Defined.

(** ** render in its host *)

Section HostFacts.

Variable inherited : string -> option Inherited.
Variable LocalTZA : Z -> Z.
Variable eventHistory : gmap string (list Event).

Lemma insertDates_iteration_pushes messages i m :
  insertDates_iteration inherited LocalTZA eventHistory messages i m
  = if bucket_throws inherited eventHistory m then None
    else Some (insertDates_pushes LocalTZA eventHistory messages i m).
Proof.
  unfold insertDates_iteration, insertDates_pushes, bucket_throws, push_events,
    eventHistory_get, eventsNextToMessage.
  destruct (passes_through m); simpl; [done|].
  destruct (eventHistory !! or_else (msg_id m) "first") as [es|].
  - by destruct (0 <? length es)%nat.
  - destruct (inherited (or_else (msg_id m) "first")) as [[n|]|]; simpl;
      rewrite ?app_nil_r; try done.
    destruct (0 <? n)%nat; [done|]. by rewrite app_nil_r.
Qed.

Lemma insertDates_or_throw_loop_pushes messages rest i newMessages :
  insertDates_or_throw_loop inherited LocalTZA eventHistory messages i rest newMessages
  = if existsb (bucket_throws inherited eventHistory) rest then None
    else Some (insertDates_loop LocalTZA eventHistory messages i rest newMessages).
Proof.
  revert i newMessages. induction rest as [|m rest IH]; intros i acc; simpl; [done|].
  rewrite insertDates_iteration_pushes.
  destruct (bucket_throws inherited eventHistory m); simpl; [done|]. apply IH.
Qed.

(** Where the code returns a timeline, it is that of [insertDates]; it
    throws when the key of a message it looks up names an inherited
    function with parameters. *)
Lemma insertDates_or_throw_returns messages :
  insertDates_or_throw inherited LocalTZA eventHistory messages
  = if existsb (bucket_throws inherited eventHistory) messages then None
    else Some (insertDates LocalTZA eventHistory messages).
Proof. apply insertDates_or_throw_loop_pushes. Qed.

Lemma existsb_elem_of {A} (f : A -> bool) (l : list A) :
  existsb f l = true <-> exists x, x ∈ l /\ f x = true.
Proof.
  rewrite List.existsb_exists. split; intros (x & Hx & Hf); exists x;
    (split; [by apply list_elem_of_In|done]).
Qed.

(** The messages of any rearrangement of the timeline are those of the
    input. *)
Lemma timeline_messages (messages : list Message) (l : list Entry) (m : Message) :
  l ≡ₚ insertDates LocalTZA eventHistory messages ->
  EMsg m ∈ l <-> m ∈ messages.
Proof.
  intros ->.
  assert (Hfilter : List.filter is_message (insertDates LocalTZA eventHistory messages)
                    = map EMsg messages).
  { rewrite insertDates_blocks. apply filter_is_message_blocks, pushes_one_message. }
  split.
  - intros Hin.
    assert (Hf : EMsg m ∈ List.filter is_message (insertDates LocalTZA eventHistory messages)).
    { apply list_elem_of_In, List.filter_In. split; [by apply list_elem_of_In|done]. }
    rewrite Hfilter in Hf. apply list_elem_of_In, List.in_map_iff in Hf as (m' & [= ->] & Hm).
    by apply list_elem_of_In.
  - intros Hm.
    assert (Hf : EMsg m ∈ List.filter is_message (insertDates LocalTZA eventHistory messages)).
    { rewrite Hfilter. apply list_elem_of_In, List.in_map, list_elem_of_In, Hm. }
    apply list_elem_of_In, List.filter_In in Hf as [Hf _]. by apply list_elem_of_In.
Qed.

End HostFacts.

(** A [Message] element in what the loop pushes for an entry. *)
Lemma render_entry_message_item threadList state_editing
    (messageGroupStyles : gmap string (list string)) (readData : gmap string (list User))
    lastReceivedId x pushed key p :
  render_entry threadList state_editing messageGroupStyles readData lastReceivedId x
  = Some pushed ->
  MessageItem key p ∈ pushed ->
  exists m, x = EMsg m /\ rendered_as_message m = true
    /\ p = mkMessageProps m
             (default [] (messageGroupStyles !! property_key (msg_id m)))
             (default [] (readData !! property_key (msg_id m)))
             (if bool_decide (lastReceivedId = Some (msg_id m)) then lastReceivedId else None)
             (negb (String.eqb state_editing "") && bool_decide (Some state_editing = msg_id m)).
Proof.
  unfold render_entry, rendered_as_message. destruct x as [m|d|e].
  - destruct (String.eqb (msg_type m) "message.date") eqn:H1.
    { destruct threadList; [|done]. intros [= <-]. by intros ?%elem_of_nil. }
    destruct (String.eqb (msg_type m) "channel.event") eqn:H2; simpl.
    { destruct (String.eqb (msg_type m) "system"); [|done].
      intros [= <-]. intros Hin%list_elem_of_singleton. done. }
    destruct (String.eqb (msg_type m) "system") eqn:H3; simpl.
    { intros [= <-]. intros Hin%list_elem_of_singleton. done. }
    destruct (String.eqb (msg_type m) "message.read") eqn:H4; simpl.
    { intros [= <-]. by intros ?%elem_of_nil. }
    intros [= <-]. intros Hin%list_elem_of_singleton. injection Hin as _ ->.
    exists m. by rewrite H1, H2, H3, H4.
  - destruct threadList; intros [= <-]; [by intros ?%elem_of_nil|].
    intros Hin%list_elem_of_singleton. done.
  - intros [= <-]. intros Hin%list_elem_of_singleton. done.
Qed.

Section RenderInHost.

Variable inherited : string -> option Inherited.
Variable sort : list Entry -> list Entry.
Variable LocalTZA : Z -> Z.
Variable threadList : bool.
Variable state_editing : string.
Variable messages : list Message.
Variable eventHistory : gmap string (list Event).
Variable read : list ReadState.
Variable noGroupByUser : bool.

Abbreviation rendered_in_host :=
  (render_in_host inherited sort LocalTZA threadList state_editing messages eventHistory
                  read noGroupByUser).
Abbreviation timeline := (insertDates LocalTZA eventHistory messages).

(** X14: with a sort that returns the entries it is given, in whatever
    order, [render] throws a [TypeError] exactly in two cases: in
    [insertDates], when a message that is neither a read marker nor
    soft-deleted has a key (its id, or ['first']) under which the event
    history has no bucket of its own but inherits a function with
    parameters, such as ['constructor']; and in the loop over the
    timeline, when a message has the type ['channel.event'], or the type
    ['message.date'] outside a thread list.  Every other input is
    rendered. *)
Theorem render_in_host_throws_iff :
  (forall l, sort l ≡ₚ l) ->
  rendered_in_host = None
  <-> (exists m, m ∈ messages /\ bucket_throws inherited eventHistory m = true)
      \/ (exists m, m ∈ messages /\ breaks_render threadList m = true).
Proof.
  intros Hsort. unfold render_in_host. rewrite insertDates_or_throw_returns.
  destruct (existsb (bucket_throws inherited eventHistory) messages) eqn:Hthrows.
  - split; [|done]. intros _. left. by apply existsb_elem_of.
  - rewrite render_loop_None. split.
    + intros (x & Hx & Hnone). apply render_entry_None in Hnone as (m & -> & Hm).
      right. exists m. split; [|done].
      by apply (timeline_messages LocalTZA eventHistory messages (sort timeline)).
    + intros [Hm|(m & Hm & Hbreaks)].
      * apply existsb_elem_of in Hm. congruence.
      * exists (EMsg m). split.
        -- by apply (timeline_messages LocalTZA eventHistory messages (sort timeline)).
        -- apply render_entry_None. by exists m.
Qed.

(** X15: with a sort that returns the entries it is given, in whatever
    order, and when [render] does not throw: there is a [Message]
    element for every message of the input that is no marker, system
    message or read marker by its type, and each [Message] element is of
    such a message.  Its group styles are exactly one of [top],
    [bottom], [middle] and [single] (the empty array the loop falls back
    on is never used); its readers are those [getReadStates] files under
    its key in the timeline as the sort of the host left it; and it is
    in edit mode only if its id is the one being edited. *)
Theorem render_in_host_message_items (els : list Element) :
  (forall l, sort l ≡ₚ l) ->
  rendered_in_host = Some els ->
  (forall key p, MessageItem key p ∈ els ->
     props_message p ∈ messages
     /\ rendered_as_message (props_message p) = true
     /\ props_groupStyles p ∈ group_styles
     /\ props_readBy p
        = readers_of (sort timeline) read (property_key (msg_id (props_message p)))
     /\ (props_editing p = true ->
         msg_id (props_message p) = Some state_editing /\ state_editing <> ""))
  /\ (forall m, m ∈ messages -> rendered_as_message m = true ->
        exists key p, MessageItem key p ∈ els /\ props_message p = m).
Proof.
  intros Hsort. unfold render_in_host. rewrite insertDates_or_throw_returns.
  destruct (existsb (bucket_throws inherited eventHistory) messages); [done|].
  cbv zeta. intros Hels.
  pose proof (render_loop_Some _ _ _ _ _ _ _ _ Hels) as Hin. split.
  - intros key p Hp. apply Hin in Hp as [?%elem_of_nil|(x & pushed & Hx & Hpushed & Hp)]; [done|].
    destruct (render_entry_message_item _ _ _ _ _ _ _ _ _ Hpushed Hp) as (m & -> & Hty & ->).
    cbn [props_message props_groupStyles props_readBy props_editing].
    assert (Hm : m ∈ messages).
    { by apply (timeline_messages LocalTZA eventHistory messages (sort timeline)). }
    split; [done|]. split; [done|]. split; [|split].
    + assert (Hout : EMsg m ∈ timeline) by (by rewrite <- (Hsort timeline)).
      apply list_elem_of_lookup in Hout as [i Hi].
      destruct (styled_assigns noGroupByUser _ _ _ Hi (rendered_as_message_styled _ Hty))
        as [gs Hgs].
      destruct (getGroupStyles_assigned _ _ _ _ _ Hgs) as [gs' Hgs'].
      unfold entry_key in Hgs'. simpl in Hgs'. rewrite Hgs'. simpl.
      apply getGroupStyles_lookup_inv in Hgs' as (j & Hj).
      by apply getGroupStyles_assigns_styled in Hj as (_ & _ & _ & _ & ?).
    + rewrite getReadStates_lookup.
      rewrite bool_decide_eq_true_2; [done|].
      apply list_elem_of_In, List.in_map_iff. exists (EMsg m).
      split; [done|]. by apply list_elem_of_In.
    + intros Hedit. apply andb_prop in Hedit as [Hne Heq].
      apply bool_decide_eq_true_1 in Heq. split; [done|].
      apply negb_true_iff, String.eqb_neq in Hne. done.
  - intros m Hm Hty.
    assert (Hx : EMsg m ∈ sort timeline).
    { by apply (timeline_messages LocalTZA eventHistory messages (sort timeline)). }
    unfold rendered_as_message in Hty.
    repeat (apply andb_prop in Hty as [Hty ?]).
    eexists _, _. split.
    + apply Hin. right. exists (EMsg m). eexists. split; [exact Hx|]. split.
      * unfold render_entry.
        repeat match goal with
               | H : negb ?b = true |- _ => apply negb_true_iff in H; rewrite H
               end.
        simpl. reflexivity.
      * by apply list_elem_of_singleton.
    + done.
Qed.

End RenderInHost.

(** With the sort of the model, and where [insertDates] returns, the
    elements are those of [render_elements]. *)
Lemma render_in_host_model inherited LocalTZA threadList state_editing messages
    (eventHistory : gmap string (list Event)) read noGroupByUser :
  existsb (bucket_throws inherited eventHistory) messages = false ->
  render_in_host inherited array_sort LocalTZA threadList state_editing messages eventHistory
                 read noGroupByUser
  = render_elements LocalTZA threadList state_editing messages eventHistory read noGroupByUser.
Proof.
  intros Hreturns. unfold render_in_host, render_elements.
  by rewrite insertDates_or_throw_returns, Hreturns.
Qed.

(** A message with the id ['constructor'], and a message with the type
    of an event wrapper. *)
Lemma render_in_host_throws_iff_witness :
  render_in_host Object_prototype array_sort utc false "" [m1; named_constructor] ∅ [] false
  = None
  /\ render_in_host Object_prototype array_sort utc false "" [m1; fake_event] ∅ [] false
     = None.
Proof.
  split.
  - apply (render_in_host_throws_iff Object_prototype array_sort utc false ""
             [m1; named_constructor] ∅ [] false array_sort_perm).
    left. exists named_constructor. split; [|reflexivity].
    apply list_elem_of_In. right. left. reflexivity.
  - apply (render_in_host_throws_iff Object_prototype array_sort utc false ""
             [m1; fake_event] ∅ [] false array_sort_perm).
    right. exists fake_event. split; [|reflexivity].
    apply list_elem_of_In. right. left. reflexivity.
Defined.

(** The older of two messages out of order. *)
Lemma render_in_host_message_items_witness :
  exists key p,
    MessageItem key p
      ∈ default [] (render_in_host Object_prototype array_sort utc false "" [late; early] ∅
                      [reader_50] false)
    /\ props_message p = early.
Proof.
  destruct (render_in_host_message_items Object_prototype array_sort utc false ""
              [late; early] ∅ [reader_50] false
              (default [] (render_in_host Object_prototype array_sort utc false ""
                             [late; early] ∅ [reader_50] false)) array_sort_perm)
    as [_ Hall].
  - vm_compute. reflexivity.
  - apply (Hall early); [|reflexivity].
    apply list_elem_of_In. right. left. reflexivity.
Defined.
